(** * upload_to_channel.py: pairing of books with covers and their upload

    A shallow embedding of [upload_to_channel.py].  Python [str] values are
    lists of code points; the embedding covers the code points below 256
    (Latin-1), for which [str.strip], [str.lower], the [\s] class of [re]
    and UTF-8 encoding are written out in full.  [bytes] values are lists
    of [Byte.byte].  Functions that touch the file system, the network, the
    image library or the clock run in a state-and-exception monad over an
    explicit [World].  The failures that the world or the configuration can
    cause there are a file that is missing, a folder that is missing or is
    no directory, a call into Pillow that fails, a reply of the server that
    is an error, and a delay that [sleep] refuses; printing and writing
    the report succeed. *)

From Stdlib Require Import Ascii String DecimalString ZArith NArith Bool Arith.
From Stdlib Require Import Lia List Permutation Sorted.
From Stdlib Require Strings.Byte.
Import ListNotations.

Local Open Scope list_scope.

(** ** Python strings *)

Definition str := list ascii.
Definition bytes := list Byte.byte.

Definition lit (s : string) : str := list_ascii_of_string s.
Arguments lit s%_string.

Definition ord (c : ascii) : N := N_of_ascii c.
Definition chr (n : N) : ascii := ascii_of_N n.

Definition str_eqb (a b : str) : bool :=
  if list_eq_dec ascii_dec a b then true else false.

(** [str.isspace] on one code point below 256: the same set [str.strip()]
    removes and the [\s] class matches. *)
Definition isspace (c : ascii) : bool :=
  let n := ord c in
  ((9 <=? n) && (n <=? 13) || (28 <=? n) && (n <=? 32)
   || (n =? 133) || (n =? 160))%N.

(** [str.lower] on one code point below 256. *)
Definition lower_char (c : ascii) : ascii :=
  let n := ord c in
  if ((65 <=? n) && (n <=? 90)
      || (192 <=? n) && (n <=? 222) && negb (n =? 215))%N
  then chr (n + 32) else c.

Definition lower (s : str) : str := map lower_char s.

Fixpoint lstrip (s : str) : str :=
  match s with
  | c :: s' => if isspace c then lstrip s' else s
  | [] => []
  end.

Definition rstrip (s : str) : str := rev (lstrip (rev s)).

Definition strip (s : str) : str := rstrip (lstrip s).

Definition endswith (s suffix : str) : bool :=
  (length suffix <=? length s)%nat
  && str_eqb (skipn (length s - length suffix) s) suffix.

Definition startswith (s prefix : str) : bool :=
  str_eqb (firstn (length prefix) s) prefix.

(** [s[: -n]] for [n > 0]: an index before the start clamps to the start. *)
Definition drop_last (n : nat) (s : str) : str := firstn (length s - n) s.

(** Lexicographic order on code points, Python's [<=] on [str]. *)
Fixpoint str_leb (a b : str) : bool :=
  match a, b with
  | [], _ => true
  | _ :: _, [] => false
  | x :: a', y :: b' =>
      if (ord x <? ord y)%N then true
      else if (ord y <? ord x)%N then false
      else str_leb a' b'
  end.

(** [str(n)] for an [int]. *)
Definition str_of_Z (z : Z) : str :=
  list_ascii_of_string (NilZero.string_of_int (Z.to_int z)).

Definition str_of_nat (n : nat) : str := str_of_Z (Z.of_nat n).

(** ** The filename normalizer *)

Definition cover_marker : str := lit ".cover".

Definition normalize_stem (stem : str) : str :=
  let normalized := strip stem in
  let normalized :=
    if endswith (lower normalized) cover_marker
    then drop_last (length cover_marker) normalized
    else normalized in
  strip normalized.

(** ** Paths and directory listings *)

(** A [pathlib.Path] by its directory and its final component. *)
Record Path := { parent : str; name : str }.

Definition Path_eqb (p q : Path) : bool :=
  str_eqb (parent p) (parent q) && str_eqb (name p) (name q).

Definition fspath (p : Path) : str := parent p ++ lit "/" ++ name p.

(** [s.rfind(c)] *)
Fixpoint rfind_from (c : ascii) (s : str) (i : nat) (found : option nat)
  : option nat :=
  match s with
  | [] => found
  | x :: s' =>
      rfind_from c s' (S i) (if Ascii.eqb x c then Some i else found)
  end.

Definition rfind (c : ascii) (s : str) : option nat := rfind_from c s 0 None.

Definition dot : ascii := "."%char.

(** [PurePath.suffix] and [PurePath.stem], which split the name at its last
    dot when [0 < i < len(name) - 1]. *)
Definition suffix_of (p : Path) : str :=
  match rfind dot (name p) with
  | Some i =>
      if (0 <? i)%nat && (i <? length (name p) - 1)%nat
      then skipn i (name p) else []
  | None => []
  end.

Definition stem_of (p : Path) : str :=
  match rfind dot (name p) with
  | Some i =>
      if (0 <? i)%nat && (i <? length (name p) - 1)%nat
      then firstn i (name p) else name p
  | None => name p
  end.

(** What [folder.iterdir()] yields, with the answer of [is_file()]. *)
Record DirEntry := { path : Path; is_file : bool }.

Definition str_in (s : str) (set : list str) : bool :=
  existsb (str_eqb s) set.

Definition IMAGE_EXTENSIONS : list str :=
  [lit ".jpg"; lit ".jpeg"; lit ".png"; lit ".webp"; lit ".tif"; lit ".tiff"].

Definition SCRIPT_FILES : list str :=
  [lit "upload_to_channel.py"; lit "config.py"; lit "__pycache__"].

(** ** Dictionaries in insertion order and stable sorting *)

Definition dict (V : Type) := list (str * V).

Definition keys {V} (d : dict V) : list str := map fst d.

(** [d[k]] for a key of [d]. *)
Fixpoint getitem {V} (d : dict (list V)) (k : str) : list V :=
  match d with
  | [] => []
  | (k', v) :: d' => if str_eqb k' k then v else getitem d' k
  end.

(** [d.setdefault(k, []).append(v)] *)
Fixpoint setdefault_append {V} (d : dict (list V)) (k : str) (v : V)
  : dict (list V) :=
  match d with
  | [] => [(k, [v])]
  | (k', g) :: d' =>
      if str_eqb k' k then (k', g ++ [v]) :: d'
      else (k', g) :: setdefault_append d' k v
  end.

(** [sorted(l, key=key)]: a stable sort, elements with equal keys keep
    the order they have in [l]. *)
Fixpoint insert_by {A} (key : A -> str) (x : A) (l : list A) : list A :=
  match l with
  | [] => [x]
  | y :: l' =>
      if str_leb (key x) (key y) then x :: l else y :: insert_by key x l'
  end.

Definition sorted {A} (key : A -> str) (l : list A) : list A :=
  fold_right (insert_by key) [] l.

(** ** The pair builder *)

Definition Pair : Type := str * Path * Path.

Definition is_image (p : Path) : bool :=
  str_in (lower (suffix_of p)) IMAGE_EXTENSIONS.

Definition group_by_stem (items : list Path) : dict (list Path) :=
  fold_left
    (fun by_stem file_path =>
       setdefault_append by_stem (normalize_stem (stem_of file_path)) file_path)
    items [].

Definition pair_step (by_stem : dict (list Path))
  (acc : list Pair * list str) (stem : str) : list Pair * list str :=
  let '(pairs, missing) := acc in
  let group := sorted (fun p => lower (suffix_of p)) (getitem by_stem stem) in
  let images := filter is_image group in
  let books := filter (fun p => negb (is_image p)) group in
  match images, books with
  | image :: _, book :: _ => (pairs ++ [(stem, image, book)], missing)
  | _, _ => (pairs, missing ++ [stem])
  end.

(** [build_pairs(folder)], as a function of the entries [folder.iterdir()]
    yields, in the order it yields them. *)
Definition items_of (entries : list DirEntry) : list Path :=
  map path
    (filter (fun e => is_file e && negb (str_in (name (path e)) SCRIPT_FILES))
       entries).

Definition build_pairs (entries : list DirEntry) : list Pair * list str :=
  let items := items_of entries in
  let by_stem := group_by_stem items in
  fold_left (pair_step by_stem) (sorted lower (keys by_stem)) ([], []).

(** ** Sanitizing and formatting *)

(** [re.sub(r'[...]+', repl, s)] for a character class: every maximal run
    of characters of the class is replaced by [repl]. *)
Fixpoint sub_runs_from (cls : ascii -> bool) (repl : str) (in_run : bool)
  (s : str) : str :=
  match s with
  | [] => []
  | c :: s' =>
      if cls c
      then (if in_run then [] else repl) ++ sub_runs_from cls repl true s'
      else c :: sub_runs_from cls repl false s'
  end.

Definition sub_runs (cls : ascii -> bool) (repl : str) (s : str) : str :=
  sub_runs_from cls repl false s.

Definition dquote : ascii := chr 34.
Definition CR : ascii := chr 13.
Definition LF : ascii := chr 10.
Definition crlf : str := [CR; LF].

(** The class of the pattern: backslash, slash, colon, star, question
    mark, double quote, angle brackets and bar. *)
Definition forbidden (c : ascii) : bool :=
  existsb (Ascii.eqb c) (dquote :: lit "\/:*?<>|").

Definition sanitize_filename (name : str) : str :=
  let cleaned := strip (sub_runs forbidden (lit "_") name) in
  let cleaned := sub_runs isspace (lit " ") cleaned in
  firstn 180 cleaned.

(** Rounding of [num / den] to the nearest integer, ties to even
    ([0 <= num], [0 < den]). *)
Definition round_half_even (num den : Z) : Z :=
  let q := (num / den)%Z in
  let r := (num mod den)%Z in
  if (2 * r <? den)%Z then q
  else if (den <? 2 * r)%Z then (q + 1)%Z
  else if Z.even q then q else (q + 1)%Z.

(** The value of the float nearest to a nonnegative [int]: 53 significant
    bits are kept. *)
Definition nearest_float (n : Z) : Z :=
  let bits := (Z.log2 n + 1)%Z in
  if (bits <=? 53)%Z then n
  else let ulp := (2 ^ (bits - 53))%Z in (round_half_even n ulp * ulp)%Z.

Definition two_digits (n : Z) : str :=
  str_of_Z (n / 10) ++ str_of_Z (n mod 10).

(** [size_bytes / (1024 * 1024)] printed with [.2f]: the quotient is the nearest
    float of [size_bytes] scaled by a power of two, and [.2f] rounds its
    exact value to hundredths, ties to even. *)
Definition format_size (size_bytes : Z) : str :=
  let hundredths :=
    round_half_even (nearest_float (Z.abs size_bytes) * 100) (1024 * 1024) in
  (if (size_bytes <? 0)%Z then lit "-" else [])
  ++ str_of_Z (hundredths / 100) ++ lit "." ++ two_digits (hundredths mod 100)
  ++ lit " MB".

(** ** Bytes *)

Definition byte_of (n : N) : Byte.byte :=
  match Byte.of_N n with Some b => b | None => Byte.x00 end.

(** [s.encode()]: UTF-8 of code points below 256. *)
Definition encode (s : str) : bytes :=
  flat_map
    (fun c =>
       let n := ord c in
       if (n <? 128)%N then [byte_of n]
       else [byte_of (192 + n / 64); byte_of (128 + n mod 64)])
    s.

(** ** The world the script runs in *)

Inductive exn :=
| TelegramRequestTooLargeError (msg : str)
| RuntimeError (msg : str)
| Exception (msg : str).

(** [str(exc)] *)
Definition exn_str (e : exn) : str :=
  match e with
  | TelegramRequestTooLargeError msg | RuntimeError msg | Exception msg => msg
  end.

Inductive result (A : Type) :=
| Ok (a : A)
| Raise (e : exn).
Arguments Ok {A} a.
Arguments Raise {A} e.

Record File := { st_size : Z; content : bytes }.

Record Request := {
  req_url : str;
  req_data : bytes;
  req_headers : list (str * str);
  req_method : str;
  req_timeout : Z
}.

(** What [urlopen] does with a request: an [HTTPError] with its status
    and decoded body, another [URLError] with its text, a body that is no
    JSON object ([json.loads] or [payload.get] raises), or a JSON object
    with the truth value of its [ok] entry and its printed form. *)
Record Payload := { ok : bool; repr : str }.

Inductive reply :=
| HTTPError (code : Z) (details : str)
| URLError (text : str)
| Malformed (text : str)
| Body (payload : Payload).

Inductive event :=
| Stat (p : Path)
| ReadFile (p : Path)
| MkTemp (dir : str)
| RmTemp (dir : str)
| ImageOpen (p : Path)
| ImageSave (p : Path) (format : str) (quality : Z) (optimize : bool)
| UrlOpen (req : Request)
| Sleep (seconds : Z)
| Print (line : str)
| WriteText (p : Path) (text : bytes).

(** What is at the path of a folder: nothing, something that is no
    directory, or a directory with the entries [iterdir] yields. *)
Inductive Folder :=
| Absent
| NotADirectory
| Directory (entries : list DirEntry).

Record World := {
  fs : Path -> option File;
  folders : str -> Folder;
  remote : nat -> Request -> reply;
  entropy : nat -> str;
  drawn : nat;
  trace : list event
}.

Definition is_urlopen (e : event) : bool :=
  match e with UrlOpen _ => true | _ => false end.

(** The requests issued so far. *)
Definition sent (w : World) : list event := filter is_urlopen (trace w).

(** ** The monad of the script: state and exceptions *)

Definition M (A : Type) : Type := World -> result A * World.

Definition ret {A} (a : A) : M A := fun w => (Ok a, w).

Definition raise {A} (e : exn) : M A := fun w => (Raise e, w).

Definition bind {A B} (m : M A) (k : A -> M B) : M B :=
  fun w =>
    match m w with
    | (Ok a, w') => k a w'
    | (Raise e, w') => (Raise e, w')
    end.

Declare Scope monad_scope.
Delimit Scope monad_scope with monad.
Notation "x <- m ;; k" := (bind m (fun x => k))
  (at level 61, m at next level, right associativity) : monad_scope.
Notation "' pat <- m ;; k" := (bind m (fun x => match x with pat => k end))
  (at level 61, pat pattern, m at next level, right associativity)
  : monad_scope.
Notation "m ;; k" := (bind m (fun _ => k))
  (at level 61, right associativity) : monad_scope.
Local Open Scope monad_scope.

(** [try: m  except Exception as e: handler(e)] *)
Definition try_except {A} (m : M A) (handler : exn -> M A) : M A :=
  fun w =>
    match m w with
    | (Ok a, w') => (Ok a, w')
    | (Raise e, w') => handler e w'
    end.

(** [try: m  finally: cleanup] *)
Definition finally {A} (m : M A) (cleanup : M unit) : M A :=
  fun w =>
    match m w with
    | (r, w') => (r, snd (cleanup w'))
    end.

Fixpoint foldM {A B} (f : A -> B -> M A) (l : list B) (a : A) : M A :=
  match l with
  | [] => ret a
  | b :: l' => a' <- f a b ;; foldM f l' a'
  end.

Definition with_trace (w : World) (t : list event) : World :=
  {| fs := fs w; folders := folders w; remote := remote w;
     entropy := entropy w; drawn := drawn w; trace := t |}.

Definition with_fs (w : World) (f : Path -> option File) : World :=
  {| fs := f; folders := folders w; remote := remote w;
     entropy := entropy w; drawn := drawn w; trace := trace w |}.

Definition log (e : event) : M unit :=
  fun w => (Ok tt, with_trace w (trace w ++ [e])).

Definition get_world : M World := fun w => (Ok w, w).

Definition set_file (p : Path) (f : option File) : M unit :=
  fun w =>
    (Ok tt, with_fs w (fun q => if Path_eqb q p then f else fs w q)).

(** One draw of randomness ([uuid4], the suffix of a temporary name). *)
Definition draw : M str :=
  fun w =>
    (Ok (entropy w (drawn w)),
     {| fs := fs w; folders := folders w; remote := remote w;
        entropy := entropy w; drawn := S (drawn w); trace := trace w |}).

Definition FileNotFoundError (p : Path) : exn :=
  Exception (lit "[Errno 2] No such file or directory: '" ++ fspath p ++ lit "'").

Definition NotADirectoryError (folder : str) : exn :=
  Exception (lit "[Errno 20] Not a directory: '" ++ folder ++ lit "'").

Definition ValueError (msg : str) : exn := Exception msg.

Definition OverflowError (msg : str) : exn := Exception msg.

(** [folder.exists()] *)
Definition path_exists (folder : str) : M bool :=
  w <- get_world ;;
  match folders w folder with
  | Absent => ret false
  | _ => ret true
  end.

(** [folder.iterdir()], run to its end. *)
Definition iterdir (folder : str) : M (list DirEntry) :=
  w <- get_world ;;
  match folders w folder with
  | Directory entries => ret entries
  | NotADirectory => raise (NotADirectoryError folder)
  | Absent =>
      raise (Exception (lit "[Errno 2] No such file or directory: '" ++ folder
                        ++ lit "'"))
  end.

(** [p.stat().st_size] *)
Definition stat_size (p : Path) : M Z :=
  log (Stat p) ;;
  w <- get_world ;;
  match fs w p with
  | Some f => ret (st_size f)
  | None => raise (FileNotFoundError p)
  end.

(** [with p.open('rb') as f: f.read()] *)
Definition read_bytes (p : Path) : M bytes :=
  log (ReadFile p) ;;
  w <- get_world ;;
  match fs w p with
  | Some f => ret (content f)
  | None => raise (FileNotFoundError p)
  end.

Definition print (line : str) : M unit := log (Print line).

(** [sleep(seconds)] for an [int], as CPython 3.11 has it: the seconds are
    first turned into nanoseconds in 64 bits, which fails beyond 9223372036
    seconds on either side of zero; a negative length is refused next; in
    both cases the error is raised at once, and no time passes. *)
Definition sleep (seconds : Z) : M unit :=
  if (Z.abs seconds >? 9223372036)%Z
  then raise (OverflowError
                (lit "timestamp too large to convert to C _PyTime_t"))
  else if (seconds <? 0)%Z
  then raise (ValueError (lit "sleep length must be non-negative"))
  else log (Sleep seconds).

(** [p.write_text(text, encoding='utf-8')]: the file is replaced. *)
Definition write_text (p : Path) (text : str) : M unit :=
  let raw := encode text in
  log (WriteText p raw) ;;
  set_file p (Some {| st_size := Z.of_nat (length raw); content := raw |}).

(** [urlopen(req, timeout=...)]: the reply may depend on the request and on
    how many were issued before it. *)
Definition urlopen (req : Request) : M reply :=
  fun w =>
    (Ok (remote w (length (sent w)) req),
     with_trace w (trace w ++ [UrlOpen req])).

(** ** Configuration and libraries

    [config.py] is not part of the sources: its five values are parameters,
    the three texts as [str] and the two numbers as [int].
    So are the directory of the script, the directory of temporary files,
    [mimetypes.guess_type] and the three calls into Pillow. *)

Record Config := {
  BOT_TOKEN : str;
  CHANNEL_ID : str;
  FILES_DIR : str;
  MAX_FILE_SIZE_MB : Z;
  POST_DELAY_SECONDS : Z
}.

Record Libraries := {
  script_dir : str;
  gettempdir : str;
  guess_type : str -> option str;
  image : Type;
  Image_open : bytes -> image + str;
  Image_convert : image -> str -> image + str;
  Image_save : image -> str -> Z -> bool -> bytes + str
}.

Definition lift {A} (r : A + str) : M A :=
  match r with
  | inl a => ret a
  | inr msg => raise (Exception msg)
  end.

Section Script.

Variable cfg : Config.
Variable lib : Libraries.

Definition MAX_FILE_SIZE_BYTES : Z := (MAX_FILE_SIZE_MB cfg * 1024 * 1024)%Z.

Definition SKIPPED_TOO_LARGE_REPORT : Path :=
  {| parent := script_dir lib; name := lit "skipped_too_large.txt" |}.

(** *** The multipart encoder *)

Definition field_chunks (boundary : str) (key value : str) : list bytes :=
  [ encode (lit "--" ++ boundary ++ crlf);
    encode (lit "Content-Disposition: form-data; name=" ++ [dquote] ++ key
            ++ [dquote] ++ crlf ++ crlf);
    encode (value ++ crlf) ].

Definition mime_type_of (file_path : Path) : str :=
  match guess_type lib (name file_path) with
  | Some (c :: t) => c :: t
  | _ => lit "application/octet-stream"
  end.

Definition file_chunks (boundary : str) (field_name : str) (file_path : Path)
  (file_data : bytes) : list bytes :=
  [ encode (lit "--" ++ boundary ++ crlf);
    encode (lit "Content-Disposition: form-data; name=" ++ [dquote]
            ++ field_name ++ [dquote] ++ lit "; filename=" ++ [dquote]
            ++ name file_path ++ [dquote] ++ crlf);
    encode (lit "Content-Type: " ++ mime_type_of file_path ++ crlf ++ crlf);
    file_data;
    encode crlf ].

Definition encode_multipart (fields : dict str) (files : list (str * Path))
  : M (bytes * str) :=
  token <- draw ;;
  let boundary := lit "----TelegramBoundary" ++ token in
  let chunks : list bytes := [] in
  let chunks :=
    fold_left
      (fun chunks '(key, value) => chunks ++ field_chunks boundary key value)
      fields chunks in
  chunks <-
    foldM
      (fun chunks '(field_name, file_path) =>
         file_data <- read_bytes file_path ;;
         ret (chunks ++ file_chunks boundary field_name file_path file_data))
      files chunks ;;
  let chunks := chunks ++ [encode (lit "--" ++ boundary ++ lit "--" ++ crlf)] in
  let body := concat chunks in
  let content_type := lit "multipart/form-data; boundary=" ++ boundary in
  ret (body, content_type).

(** *** The API client *)

Definition telegram_call (method : str) (fields : dict str)
  (files : list (str * Path)) : M Payload :=
  let url :=
    lit "https://api.telegram.org/bot" ++ BOT_TOKEN cfg ++ lit "/" ++ method in
  '(body, content_type) <- encode_multipart fields files ;;
  let req :=
    {| req_url := url;
       req_data := body;
       req_headers :=
         [ (lit "Content-Type", content_type);
           (lit "Content-Length", str_of_nat (length body)) ];
       req_method := lit "POST";
       req_timeout := 60 |} in
  r <- urlopen req ;;
  match r with
  | HTTPError code details =>
      if (code =? 413)%Z
      then raise (TelegramRequestTooLargeError
                    (lit "HTTP " ++ str_of_Z code ++ lit ": " ++ details))
      else raise (RuntimeError
                    (lit "HTTP " ++ str_of_Z code ++ lit ": " ++ details))
  | URLError text => raise (RuntimeError (lit "Network error: " ++ text))
  | Malformed text => raise (Exception text)
  | Body payload =>
      if negb (ok payload)
      then raise (RuntimeError (lit "Telegram API error: " ++ repr payload))
      else ret payload
  end.

(** *** The image preparer

    The generator under [@contextmanager] takes the body of the caller's
    [with] block as a continuation: the body runs where the generator
    yields, inside the [with] blocks that are open there. *)

Definition prepared_image_for_upload {A} (image_path : Path) (stem : str)
  (body : Path -> M A) : M A :=
  if negb (str_in (lower (suffix_of image_path)) [lit ".tif"; lit ".tiff"])
  then body image_path
  else
    let safe_name :=
      match sanitize_filename stem with
      | [] => lit "cover"
      | c :: t => c :: t
      end in
    token <- draw ;;
    let tmp_dir := gettempdir lib ++ lit "/telegram_cover_" ++ token in
    log (MkTemp tmp_dir) ;;
    let jpg_path := {| parent := tmp_dir; name := safe_name ++ lit ".jpg" |} in
    finally
      (log (ImageOpen image_path) ;;
       w <- get_world ;;
       raw <- match fs w image_path with
              | Some f => ret (content f)
              | None => raise (FileNotFoundError image_path)
              end ;;
       src <- lift (Image_open lib raw) ;;
       rgb <- lift (Image_convert lib src (lit "RGB")) ;;
       jpeg <- lift (Image_save lib rgb (lit "JPEG") 90 true) ;;
       log (ImageSave jpg_path (lit "JPEG") 90 true) ;;
       set_file jpg_path
         (Some {| st_size := Z.of_nat (length jpeg); content := jpeg |}) ;;
       body jpg_path)
      (set_file jpg_path None ;; log (RmTemp tmp_dir)).

(** *** One pair *)

Definition upload_pair (stem : str) (image_path book_path : Path) : M unit :=
  book_size <- stat_size book_path ;;
  if (book_size >? MAX_FILE_SIZE_BYTES)%Z
  then raise (TelegramRequestTooLargeError
                (lit "Book is too large: " ++ name book_path ++ lit " ("
                 ++ format_size book_size ++ lit ")"))
  else
    prepared_image_for_upload image_path stem
      (fun ready_image_path =>
         image_size <- stat_size ready_image_path ;;
         if (image_size >? MAX_FILE_SIZE_BYTES)%Z
         then raise (TelegramRequestTooLargeError
                       (lit "Image is too large: " ++ name ready_image_path
                        ++ lit " (" ++ format_size image_size ++ lit ")"))
         else
           telegram_call (lit "sendPhoto")
             [(lit "chat_id", CHANNEL_ID cfg); (lit "caption", stem)]
             [(lit "photo", ready_image_path)] ;;
           ret tt) ;;
    telegram_call (lit "sendDocument")
      [(lit "chat_id", CHANNEL_ID cfg)]
      [(lit "document", book_path)] ;;
    ret tt.

(** *** The run *)

Record Tally := {
  uploaded : nat;
  too_large : nat;
  failed : nat;
  too_large_details : list str
}.

Definition tally0 : Tally :=
  {| uploaded := 0; too_large := 0; failed := 0; too_large_details := [] |}.

(** [uploaded += 1] *)
Definition count_uploaded (t : Tally) : Tally :=
  {| uploaded := uploaded t + 1; too_large := too_large t;
     failed := failed t; too_large_details := too_large_details t |}.

(** [too_large += 1] and one more line for the report. *)
Definition count_too_large (t : Tally) (stem reason : str) : Tally :=
  {| uploaded := uploaded t; too_large := too_large t + 1;
     failed := failed t;
     too_large_details :=
       too_large_details t ++ [stem ++ lit " | " ++ reason] |}.

(** [failed += 1] *)
Definition count_failed (t : Tally) : Tally :=
  {| uploaded := uploaded t; too_large := too_large t;
     failed := failed t + 1; too_large_details := too_large_details t |}.

Definition progress_line (total index : nat) (stem : str) : str :=
  lit "[" ++ str_of_nat index ++ lit "/" ++ str_of_nat total ++ lit "] "
  ++ stem.

(** The body of the [for] loop of [main] for one pair. *)
Definition upload_step (total index : nat) (t : Tally) (item : Pair)
  : M Tally :=
  let '(stem, image_path, book_path) := item in
  print (progress_line total index stem) ;;
  t' <- try_except
          (upload_pair stem image_path book_path ;;
           ret (count_uploaded t))
          (fun exc =>
             match exc with
             | TelegramRequestTooLargeError _ =>
                 let reason := exn_str exc in
                 print (lit "  skipped (too large): " ++ reason) ;;
                 ret (count_too_large t stem reason)
             | _ =>
                 print (lit "  failed: " ++ exn_str exc) ;;
                 ret (count_failed t)
             end) ;;
  sleep (POST_DELAY_SECONDS cfg) ;;
  ret t'.

(** [for index, pair in enumerate(pairs, start=index)] *)
Fixpoint upload_loop (total index : nat) (pairs : list Pair) (t : Tally)
  : M Tally :=
  match pairs with
  | [] => ret t
  | item :: rest =>
      t' <- upload_step total index t item ;;
      upload_loop total (S index) rest t'
  end.

(** [sep.join(items)] *)
Fixpoint join (sep : str) (items : list str) : str :=
  match items with
  | [] => []
  | [x] => x
  | x :: rest => x ++ sep ++ join sep rest
  end.

Definition write_report (t : Tally) : M unit :=
  match too_large_details t with
  | [] => ret tt
  | _ :: _ =>
      write_text SKIPPED_TOO_LARGE_REPORT
        (join [LF] (too_large_details t) ++ [LF]) ;;
      print (lit "Saved skipped list: " ++ fspath SKIPPED_TOO_LARGE_REPORT)
  end.

Definition main : M unit :=
  if startswith (BOT_TOKEN cfg) (lit "PASTE_")
     || startswith (CHANNEL_ID cfg) (lit "PASTE_")
  then raise (RuntimeError
                (lit "Set BOT_TOKEN and CHANNEL_ID in telegram_book/config.py"))
  else
    let folder := FILES_DIR cfg in
    found <- path_exists folder ;;
    if negb found
    then raise (RuntimeError (lit "Folder not found: " ++ folder))
    else
      entries <- iterdir folder ;;
      let '(pairs, missing) := build_pairs entries in
      match pairs with
      | [] => print (lit "No valid pairs found in: " ++ folder)
      | _ :: _ =>
          print (lit "Found pairs: " ++ str_of_nat (length pairs)) ;;
          match missing with
          | [] => ret tt
          | _ :: _ =>
              print (lit "Skipped (missing image or book): "
                     ++ str_of_nat (length missing))
          end ;;
          t <- upload_loop (length pairs) 1 pairs tally0 ;;
          write_report t ;;
          print (lit "Done.") ;;
          print (lit "Uploaded: " ++ str_of_nat (uploaded t)) ;;
          print (lit "Skipped (too large): " ++ str_of_nat (too_large t)) ;;
          print (lit "Failed (other errors): " ++ str_of_nat (failed t))
      end.

End Script.

(** * Notions used to state the properties *)

(** [x] comes no later than [y] in the order of their keys. *)
Definition key_le {A} (key : A -> str) (x y : A) : Prop :=
  str_leb (key x) (key y) = true.

(** The loop that fills [by_stem], from any dictionary. *)
Definition group_from {V} (k : V -> str) (items : list V)
  (d : dict (list V)) : dict (list V) :=
  fold_left (fun by_stem v => setdefault_append by_stem (k v) v) items d.

(** No two stems of the listing differ only in case, and no two files of
    one stem have the same extension up to case. *)
Definition same_stem (p q : Path) : bool :=
  str_eqb (normalize_stem (stem_of p)) (normalize_stem (stem_of q)).

Definition tie_free (items : list Path) : bool :=
  forallb
    (fun p =>
       forallb
         (fun q =>
            implb (str_eqb (lower (normalize_stem (stem_of p)))
                           (lower (normalize_stem (stem_of q))))
                  (same_stem p q)
            && implb (same_stem p q
                      && str_eqb (lower (suffix_of p)) (lower (suffix_of q)))
                     (Path_eqb p q))
         items)
    items.

Definition stem_key (p : Path) : str := normalize_stem (stem_of p).

Definition suffix_key (p : Path) : str := lower (suffix_of p).

(** [tie_free] as a proposition. *)
Definition no_ties (items : list Path) : Prop :=
  forall p q, In p items -> In q items ->
    (lower (stem_key p) = lower (stem_key q) -> stem_key p = stem_key q)
    /\ (stem_key p = stem_key q -> suffix_key p = suffix_key q -> p = q).

Definition pair_stem (item : Pair) : str := fst (fst item).

(** Whether the group of a stem has an image and a book. *)
Definition paired (by_stem : dict (list Path)) (stem : str) : bool :=
  let group := sorted suffix_key (getitem by_stem stem) in
  match filter is_image group, filter (fun p => negb (is_image p)) group with
  | _ :: _, _ :: _ => true
  | _, _ => false
  end.

(** ** Sample data *)

Definition in_folder (folder : str) (file_name : string) : Path :=
  {| parent := folder; name := lit file_name |}.
Arguments in_folder folder file_name%_string.

Definition listed (folder : str) (file_name : string) : DirEntry :=
  {| path := in_folder folder file_name; is_file := true |}.
Arguments listed folder file_name%_string.

(** The directory of the example of the specification. *)
Definition example_listing (folder : str) : list DirEntry :=
  [ listed folder "Alpha.jpg"; listed folder "Alpha.epub";
    listed folder "Beta.cover.png"; listed folder "Beta.pdf";
    listed folder "Gamma.epub" ].

(** A book with two covers of the same extension, listed in two orders. *)
Definition two_covers : list DirEntry :=
  [ listed (lit "books") "x.jpg"; listed (lit "books") "x.cover.jpg";
    listed (lit "books") "x.pdf" ].

Definition two_covers_relisted : list DirEntry :=
  [ listed (lit "books") "x.cover.jpg"; listed (lit "books") "x.jpg";
    listed (lit "books") "x.pdf" ].

(** ** Worlds after a run *)

(** The world [w] after [k] more draws and the events [t]. *)
Definition advance (w : World) (k : nat) (t : list event) : World :=
  {| fs := fs w; folders := folders w; remote := remote w;
     entropy := entropy w; drawn := k + drawn w; trace := trace w ++ t |}.

(** The bytes a read of [p] returns. *)
Definition data_of (w : World) (p : Path) : bytes :=
  match fs w p with
  | Some f => content f
  | None => []
  end.

Definition readable (w : World) (files : list (str * Path)) : Prop :=
  forall field_name p, In (field_name, p) files -> fs w p <> None.

Definition reads (files : list (str * Path)) : list event :=
  map (fun f => ReadFile (snd f)) files.

(** ** The layout of a multipart body, part by part *)

Definition delimiter (boundary : str) : bytes :=
  encode (lit "--" ++ boundary ++ crlf).

Definition closing_delimiter (boundary : str) : bytes :=
  encode (lit "--" ++ boundary ++ lit "--" ++ crlf).

(** The part of a field: the delimiter line, the disposition header with
    the name of the field, an empty line, the value and a line break. *)
Definition field_part (boundary : str) (field : str * str) : bytes :=
  delimiter boundary
  ++ encode (lit "Content-Disposition: form-data; name=" ++ [dquote]
             ++ fst field ++ [dquote] ++ crlf)
  ++ encode crlf
  ++ encode (snd field) ++ encode crlf.

(** The part of a file: the delimiter line, the disposition header with
    the name of the field and the base name of the file, the content type,
    an empty line, the bytes of the file and a line break. *)
Definition file_part (lib : Libraries) (w : World) (boundary : str)
  (file : str * Path) : bytes :=
  delimiter boundary
  ++ encode (lit "Content-Disposition: form-data; name=" ++ [dquote]
             ++ fst file ++ [dquote] ++ lit "; filename=" ++ [dquote]
             ++ name (snd file) ++ [dquote] ++ crlf)
  ++ encode (lit "Content-Type: " ++ mime_type_of lib (snd file) ++ crlf)
  ++ encode crlf
  ++ data_of w (snd file) ++ encode crlf.

Definition multipart_parts (lib : Libraries) (w : World) (boundary : str)
  (fields : dict str) (files : list (str * Path)) : list bytes :=
  map (field_part boundary) fields ++ map (file_part lib w boundary) files.

Definition boundary_of (w : World) : str :=
  lit "----TelegramBoundary" ++ entropy w (drawn w).

(** ** Requests and what a reply makes of a call *)

Definition request_of (cfg : Config) (lib : Libraries) (w : World)
  (method : str) (fields : dict str) (files : list (str * Path)) : Request :=
  let body :=
    concat (multipart_parts lib w (boundary_of w) fields files)
    ++ closing_delimiter (boundary_of w) in
  {| req_url :=
       lit "https://api.telegram.org/bot" ++ BOT_TOKEN cfg ++ lit "/"
       ++ method;
     req_data := body;
     req_headers :=
       [ (lit "Content-Type",
          lit "multipart/form-data; boundary=" ++ boundary_of w);
         (lit "Content-Length", str_of_nat (length body)) ];
     req_method := lit "POST";
     req_timeout := 60 |}.

Definition http_error_text (code : Z) (details : str) : str :=
  lit "HTTP " ++ str_of_Z code ++ lit ": " ++ details.

(** How [telegram_call] ends on each kind of reply. *)
Definition reply_result (r : reply) : result Payload :=
  match r with
  | HTTPError code details =>
      if (code =? 413)%Z
      then Raise (TelegramRequestTooLargeError (http_error_text code details))
      else Raise (RuntimeError (http_error_text code details))
  | URLError text => Raise (RuntimeError (lit "Network error: " ++ text))
  | Malformed text => Raise (Exception text)
  | Body payload =>
      if ok payload then Ok payload
      else Raise (RuntimeError (lit "Telegram API error: " ++ repr payload))
  end.

Definition is_too_large (e : exn) : bool :=
  match e with
  | TelegramRequestTooLargeError _ => true
  | _ => false
  end.

Definition needs_conversion (image_path : Path) : bool :=
  str_in (lower (suffix_of image_path)) [lit ".tif"; lit ".tiff"].

Definition photo_fields (cfg : Config) (stem : str) : dict str :=
  [(lit "chat_id", CHANNEL_ID cfg); (lit "caption", stem)].

Definition document_fields (cfg : Config) : dict str :=
  [(lit "chat_id", CHANNEL_ID cfg)].

(** ** A sample installation *)

Definition sample_cfg : Config :=
  {| BOT_TOKEN := lit "123:abc"; CHANNEL_ID := lit "@books";
     FILES_DIR := lit "books"; MAX_FILE_SIZE_MB := 50;
     POST_DELAY_SECONDS := 2 |}.

Definition sample_lib : Libraries :=
  {| script_dir := lit "telegram_book";
     gettempdir := lit "/tmp";
     guess_type :=
       fun file_name =>
         if endswith file_name (lit ".epub")
         then Some (lit "application/epub+zip")
         else if endswith file_name (lit ".jpg") then Some (lit "image/jpeg")
         else None;
     image := bytes;
     Image_open := fun raw => inl raw;
     Image_convert := fun img _ => inl img;
     Image_save := fun img _ _ _ => inl img |}.

Definition sample_cover : Path := in_folder (lit "books") "Alpha.jpg".
Definition sample_scan : Path := in_folder (lit "books") "Alpha.tiff".
Definition sample_book : Path := in_folder (lit "books") "Alpha.epub".

(** A world with one cover, one scan and one book of the given size,
    answered by [answers]. *)
Definition sample_world (book_size : Z) (answers : nat -> reply) : World :=
  {| fs :=
       fun p =>
         if Path_eqb p sample_cover
         then Some {| st_size := 2; content := [Byte.xff; Byte.xd8] |}
         else if Path_eqb p sample_scan
         then Some {| st_size := 2; content := [Byte.x49; Byte.x49] |}
         else if Path_eqb p sample_book
         then Some {| st_size := book_size;
                      content := [Byte.x50; Byte.x4b] |}
         else None;
     folders :=
       fun folder =>
         if str_eqb folder (lit "books")
         then Directory [ listed (lit "books") "Alpha.jpg";
                          listed (lit "books") "Alpha.epub" ]
         else Absent;
     remote := fun n _ => answers n;
     entropy := fun _ => lit "0123456789abcdef0123456789abcdef";
     drawn := 0;
     trace := [] |}.

Definition accepted : reply := Body {| ok := true; repr := lit "{'ok': True}" |}.

(** ** Outcomes of one pair and the report *)

(** The tally after a pair whose upload ended with [r]. *)
Definition counted (t : Tally) (stem : str) (r : result unit) : Tally :=
  match r with
  | Ok _ => count_uploaded t
  | Raise (TelegramRequestTooLargeError reason) =>
      count_too_large t stem reason
  | Raise _ => count_failed t
  end.

(** What the loop prints about the outcome of a pair. *)
Definition outcome_lines (r : result unit) : list event :=
  match r with
  | Ok _ => []
  | Raise (TelegramRequestTooLargeError reason) =>
      [Print (lit "  skipped (too large): " ++ reason)]
  | Raise e => [Print (lit "  failed: " ++ exn_str e)]
  end.

(** The events of a step after the upload: the line about the outcome and
    the sleep. *)
Definition outcome_events (cfg : Config) (r : result unit) : list event :=
  outcome_lines r ++ [Sleep (POST_DELAY_SECONDS cfg)].

Definition total_counted (t : Tally) : nat :=
  uploaded t + too_large t + failed t.

(** The text of a report: every entry followed by a line feed. *)
Definition report_text (details : list str) : str :=
  concat (map (fun d => d ++ [LF]) details).

(** The number of line feeds in a file. *)
Definition newlines (text : bytes) : nat :=
  count_occ Byte.byte_eq_dec text Byte.x0a.

Definition has_newline (s : str) : bool := existsb (Ascii.eqb LF) s.

(** A report line of one of the pairs. *)
Definition entry_of (pairs : list Pair) (line : str) : Prop :=
  exists item reason,
    In item pairs /\ line = pair_stem item ++ lit " | " ++ reason.

(** The world after [p] was written with [raw] and the events [t]. *)
Definition written (w : World) (p : Path) (raw : bytes) (t : list event)
  : World :=
  {| fs :=
       fun q =>
         if Path_eqb q p
         then Some {| st_size := Z.of_nat (length raw); content := raw |}
         else fs w q;
     folders := folders w; remote := remote w; entropy := entropy w;
     drawn := drawn w; trace := trace w ++ t |}.

(** A server that answers every request with the status 413 and a body of
    two lines. *)
Definition two_line_413 : nat -> reply :=
  fun _ => HTTPError 413 (lit "Request Entity" ++ [LF] ++ lit "Too Large").

(** ** The outcome of sanitizing *)

(** Every whitespace character is a single blank between other
    characters or at an end. *)
Fixpoint single_spaced (s : str) : bool :=
  match s with
  | [] => true
  | c :: s' =>
      (if isspace c
       then Ascii.eqb c " "
            && match s' with
               | d :: _ => negb (isspace d)
               | [] => true
               end
       else true)
      && single_spaced s'
  end.

Definition safe_name_of (stem : str) : str :=
  match sanitize_filename stem with
  | [] => lit "cover"
  | c :: t => c :: t
  end.

(** The world after file [p] was removed and the events [t]. *)
Definition removed (w : World) (p : Path) (t : list event) : World :=
  {| fs := fun q => if Path_eqb q p then None else fs w q;
     folders := folders w; remote := remote w; entropy := entropy w;
     drawn := drawn w; trace := trace w ++ t |}.

(** The world in which the caller gets the converted image: one draw
    later, with the JPEG at [jpg_path] and the events [t]. *)
Definition converted (w : World) (jpg_path : Path) (jpeg : bytes)
  (t : list event) : World :=
  {| fs :=
       fun q =>
         if Path_eqb q jpg_path
         then Some {| st_size := Z.of_nat (length jpeg); content := jpeg |}
         else fs w q;
     folders := folders w; remote := remote w; entropy := entropy w;
     drawn := S (drawn w); trace := trace w ++ t |}.

(** ** The image a pair sends *)

(** What reading and converting the image at [image_path] gives: the bytes
    of the JPEG, or the exception of the first step that fails. *)
Definition convert_image (lib : Libraries) (w : World) (image_path : Path)
  : result bytes :=
  match fs w image_path with
  | None => Raise (FileNotFoundError image_path)
  | Some f =>
      match Image_open lib (content f) with
      | inr msg => Raise (Exception msg)
      | inl src =>
          match Image_convert lib src (lit "RGB") with
          | inr msg => Raise (Exception msg)
          | inl rgb =>
              match Image_save lib rgb (lit "JPEG") 90 true with
              | inr msg => Raise (Exception msg)
              | inl jpeg => Ok jpeg
              end
          end
      end
  end.

Definition temp_dir_of (lib : Libraries) (w : World) : str :=
  gettempdir lib ++ lit "/telegram_cover_" ++ entropy w (drawn w).

Definition jpg_path_of (lib : Libraries) (w : World) (stem : str) : Path :=
  {| parent := temp_dir_of lib w; name := safe_name_of stem ++ lit ".jpg" |}.

(** The path the [with] block of [upload_pair] gets: the image itself, or
    the JPEG in the temporary directory. *)
Definition ready_path (lib : Libraries) (w : World) (stem : str)
  (image_path : Path) : Path :=
  if needs_conversion image_path then jpg_path_of lib w stem else image_path.

(** The file the block finds there: the image as it is, or the JPEG that
    Pillow makes of it. *)
Definition ready_file (lib : Libraries) (w : World) (image_path : Path)
  : option File :=
  if needs_conversion image_path
  then match convert_image lib w image_path with
       | Ok jpeg =>
           Some {| st_size := Z.of_nat (length jpeg); content := jpeg |}
       | Raise _ => None
       end
  else fs w image_path.

(** The draws of a pair before the boundary of its photo: the name of the
    temporary directory, when there is one. *)
Definition draws_before_photo (image_path : Path) : nat :=
  if needs_conversion image_path then 1 else 0.

(** The pair reaches its first call: the book is there and within the
    limit, and so is the image that is sent, be it the image as it is or
    the JPEG made of it; the temporary directory of a conversion is new, so
    that no file is at the path of the JPEG before. *)
Definition passes_checks (cfg : Config) (lib : Libraries) (w : World)
  (stem : str) (image_path book_path : Path) : Prop :=
  (needs_conversion image_path = true -> fs w (jpg_path_of lib w stem) = None)
  /\ exists book cover,
       fs w book_path = Some book
       /\ (st_size book <= MAX_FILE_SIZE_BYTES cfg)%Z
       /\ ready_file lib w image_path = Some cover
       /\ (st_size cover <= MAX_FILE_SIZE_BYTES cfg)%Z.

(** [sleep] accepts the delay between two pairs. *)
Definition delay_accepted (cfg : Config) : Prop :=
  (0 <= POST_DELAY_SECONDS cfg <= 9223372036)%Z.

(** The error of [sleep] on a delay it refuses. *)
Definition sleep_error (seconds : Z) : exn :=
  if (Z.abs seconds >? 9223372036)%Z
  then OverflowError (lit "timestamp too large to convert to C _PyTime_t")
  else ValueError (lit "sleep length must be non-negative").

(** ** The lines of a run *)

(** What [main] prints before the loop. *)
Definition header_events (pairs : list Pair) (missing : list str)
  : list event :=
  Print (lit "Found pairs: " ++ str_of_nat (length pairs))
  :: match missing with
     | [] => []
     | _ :: _ =>
         [ Print (lit "Skipped (missing image or book): "
                  ++ str_of_nat (length missing)) ]
     end.

(** What [main] prints after the report. *)
Definition footer_events (t : Tally) : list event :=
  [ Print (lit "Done.");
    Print (lit "Uploaded: " ++ str_of_nat (uploaded t));
    Print (lit "Skipped (too large): " ++ str_of_nat (too_large t));
    Print (lit "Failed (other errors): " ++ str_of_nat (failed t)) ].

(** The configuration still holds a placeholder. *)
Definition unconfigured (cfg : Config) : bool :=
  startswith (BOT_TOKEN cfg) (lit "PASTE_")
  || startswith (CHANNEL_ID cfg) (lit "PASTE_").

(** The events of writing the report. *)
Definition report_events (lib : Libraries) (raw : bytes) : list event :=
  [ WriteText (SKIPPED_TOO_LARGE_REPORT lib) raw;
    Print (lit "Saved skipped list: "
           ++ fspath (SKIPPED_TOO_LARGE_REPORT lib)) ].

(** * Notions for further properties *)

(** ** Counting the events of a run *)

Definition count_events (kind : event -> bool) (t : list event) : nat :=
  length (filter kind t).

Definition is_sleep (e : event) : bool :=
  match e with Sleep _ => true | _ => false end.

Definition is_print (e : event) : bool :=
  match e with Print _ => true | _ => false end.

Definition is_write (e : event) : bool :=
  match e with WriteText _ _ => true | _ => false end.

(** Events of the run as a whole, which one pair never causes. *)
Definition is_run_event (e : event) : bool :=
  is_sleep e || is_print e || is_write e.

(** The run of [m] keeps the trace it finds and appends to it at most [n]
    events of the given kind. *)
Definition appends_at_most {A} (kind : event -> bool) (n : nat) (m : M A)
  : Prop :=
  forall w, exists t,
    trace (snd (m w)) = trace w ++ t /\ count_events kind t <= n.

(** ** Files that cannot be read *)

(** The first file of the list that is not there. *)
Fixpoint first_unreadable (w : World) (files : list (str * Path))
  : option Path :=
  match files with
  | [] => None
  | (_, p) :: rest =>
      match fs w p with
      | None => Some p
      | Some _ => first_unreadable w rest
      end
  end.

(** ** More sample data *)

(** A library whose Pillow cannot open anything. *)
Definition blind_lib : Libraries :=
  {| script_dir := lit "telegram_book";
     gettempdir := lit "/tmp";
     guess_type := fun _ => None;
     image := bytes;
     Image_open := fun _ => inr (lit "cannot identify image file");
     Image_convert := fun img _ => inl img;
     Image_save := fun img _ _ _ => inl img |}.

Definition placeholder_cfg : Config :=
  {| BOT_TOKEN := lit "PASTE_YOUR_BOT_TOKEN"; CHANNEL_ID := lit "@books";
     FILES_DIR := lit "books"; MAX_FILE_SIZE_MB := 50;
     POST_DELAY_SECONDS := 2 |}.

Definition elsewhere_cfg : Config :=
  {| BOT_TOKEN := lit "123:abc"; CHANNEL_ID := lit "@books";
     FILES_DIR := lit "nowhere"; MAX_FILE_SIZE_MB := 50;
     POST_DELAY_SECONDS := 2 |}.

(** A configuration with a negative delay. *)
Definition hasty_cfg : Config :=
  {| BOT_TOKEN := lit "123:abc"; CHANNEL_ID := lit "@books";
     FILES_DIR := lit "books"; MAX_FILE_SIZE_MB := 50;
     POST_DELAY_SECONDS := -1 |}.

(** A cover that is larger than the limit of the sample configuration. *)
Definition huge_cover_world : World :=
  {| fs :=
       fun p =>
         if Path_eqb p sample_cover
         then Some {| st_size := 60 * 1024 * 1024;
                      content := [Byte.xff; Byte.xd8] |}
         else if Path_eqb p sample_book
         then Some {| st_size := 2; content := [Byte.x50; Byte.x4b] |}
         else None;
     folders := fun _ => Absent;
     remote := fun _ _ => accepted;
     entropy := fun _ => lit "0123456789abcdef0123456789abcdef";
     drawn := 0;
     trace := [] |}.

(** ** What [build_pairs] picks *)

(** The image and the book of a pair head the images and the books of the
    sorted group of its stem. *)
Definition first_of_group (by_stem : dict (list Path)) (item : Pair) : Prop :=
  let '(stem, cover, book) := item in
  let group := sorted suffix_key (getitem by_stem stem) in
  head (filter is_image group) = Some cover
  /\ head (filter (fun p => negb (is_image p)) group) = Some book.

(** Some candidate of the stem is an image, or is none. *)
Definition has_kind (items : list Path) (stem : str) (kind : bool) : Prop :=
  exists p, In p items /\ stem_key p = stem /\ is_image p = kind.

(** [p] is a regular file of the listing under no script name, with the
    given stem and kind, and no file of that stem and kind has a smaller
    extension in lower case. *)
Definition least_of_kind (entries : list DirEntry) (stem : str) (kind : bool)
  (p : Path) : Prop :=
  (exists e, In e entries /\ path e = p /\ is_file e = true
             /\ str_in (name p) SCRIPT_FILES = false)
  /\ stem_key p = stem
  /\ is_image p = kind
  /\ forall q, In q (items_of entries) -> stem_key q = stem ->
       is_image q = kind ->
       str_leb (suffix_key p) (suffix_key q) = true.

(** Events of the devices a pair touches: neither a request nor an event
    of the run as a whole. *)
Definition is_device (e : event) : bool :=
  negb (is_urlopen e) && negb (is_run_event e).

(** * Properties *)

(** ** Stripping *)

Lemma lstrip_idem (s : str) : lstrip (lstrip s) = lstrip s.
Proof.
  induction s as [|c s IH]; simpl; [reflexivity|].
  destruct (isspace c) eqn:E; [exact IH|].
  simpl. now rewrite E.
Qed.

Lemma lstrip_app_nonspace (a b : str) (c : ascii) :
  isspace c = false -> lstrip (a ++ c :: b) = lstrip a ++ c :: b.
Proof.
  intros Hc. induction a as [|x a IH]; simpl.
  - now rewrite Hc.
  - destruct (isspace x); [exact IH | reflexivity].
Qed.

Lemma lstrip_length (s : str) : length (lstrip s) <= length s.
Proof.
  induction s as [|c s IH]; simpl; [lia|].
  destruct (isspace c); simpl; lia.
Qed.

Lemma rstrip_length (s : str) : length (rstrip s) <= length s.
Proof.
  unfold rstrip. rewrite length_rev.
  etransitivity; [apply lstrip_length|]. now rewrite length_rev.
Qed.

Lemma strip_length (s : str) : length (strip s) <= length s.
Proof.
  unfold strip. etransitivity; [apply rstrip_length | apply lstrip_length].
Qed.

Lemma rstrip_idem (s : str) : rstrip (rstrip s) = rstrip s.
Proof.
  unfold rstrip. now rewrite rev_involutive, lstrip_idem.
Qed.

Lemma rstrip_app_nonspace (a b : str) (c : ascii) :
  isspace c = false -> rstrip (a ++ c :: b) = a ++ c :: rstrip b.
Proof.
  intros Hc. unfold rstrip.
  rewrite rev_app_distr. simpl. rewrite <- app_assoc. simpl.
  rewrite lstrip_app_nonspace by exact Hc.
  rewrite rev_app_distr. simpl. rewrite rev_involutive.
  now rewrite <- app_assoc.
Qed.

(** A string is blank, or splits at its first character that is no space. *)
Lemma lstrip_split (s : str) :
  lstrip s = [] /\ rstrip s = [] \/
  exists a c b, s = a ++ c :: b /\ isspace c = false /\ lstrip s = c :: b.
Proof.
  induction s as [|x s IH].
  - left. split; reflexivity.
  - simpl. destruct (isspace x) eqn:E.
    + destruct IH as [[Hl Hr] | (a & c & b & -> & Hc & Hl)].
      * left. split; [exact Hl|].
        unfold rstrip in *. simpl.
        apply (f_equal (@rev ascii)) in Hr. rewrite rev_involutive in Hr.
        simpl in Hr.
        assert (Hs : forall u, lstrip u = [] -> lstrip (u ++ [x]) = []).
        { clear - E. induction u as [|y u IHu]; simpl.
          - now rewrite E.
          - destruct (isspace y); [exact IHu | discriminate]. }
        now rewrite (Hs _ Hr).
      * right. exists (x :: a), c, b. repeat split; assumption.
    + right. exists [], x, s. repeat split; assumption.
Qed.

Lemma lstrip_rstrip (s : str) : lstrip (rstrip s) = rstrip (lstrip s).
Proof.
  destruct (lstrip_split s) as [[Hl Hr] | (a & c & b & Hs & Hc & Hl)].
  - rewrite Hl, Hr. reflexivity.
  - subst s. rewrite Hl.
    assert (Ha : lstrip a = []).
    { rewrite lstrip_app_nonspace in Hl by exact Hc.
      destruct (lstrip a) as [|y u]; [reflexivity|].
      apply (f_equal (@length ascii)) in Hl. simpl in Hl.
      rewrite length_app in Hl. simpl in Hl. lia. }
    rewrite (rstrip_app_nonspace a b c Hc).
    rewrite (lstrip_app_nonspace a (rstrip b) c Hc), Ha.
    symmetry. exact (rstrip_app_nonspace [] b c Hc).
Qed.

Lemma strip_idem (s : str) : strip (strip s) = strip s.
Proof.
  unfold strip. rewrite lstrip_rstrip, lstrip_idem. apply rstrip_idem.
Qed.

Lemma strip_lstrip (s : str) : strip (lstrip s) = strip s.
Proof. unfold strip. now rewrite lstrip_idem. Qed.

(** ** Case folding and suffixes *)

Lemma isspace_lower_char (c : ascii) : isspace (lower_char c) = isspace c.
Proof.
  destruct c as [b0 b1 b2 b3 b4 b5 b6 b7].
  destruct b0, b1, b2, b3, b4, b5, b6, b7; reflexivity.
Qed.

Lemma lower_length (s : str) : length (lower s) = length s.
Proof. apply length_map. Qed.

Lemma lower_app (a b : str) : lower (a ++ b) = lower a ++ lower b.
Proof. apply map_app. Qed.

Lemma str_eqb_eq (a b : str) : str_eqb a b = true <-> a = b.
Proof.
  unfold str_eqb. destruct (list_eq_dec ascii_dec a b); split;
    congruence.
Qed.

Lemma str_eqb_refl (a : str) : str_eqb a a = true.
Proof. now apply str_eqb_eq. Qed.

Lemma str_eqb_neq (a b : str) : str_eqb a b = false <-> a <> b.
Proof.
  unfold str_eqb. destruct (list_eq_dec ascii_dec a b); split;
    congruence.
Qed.

Lemma str_eqb_sym (a b : str) : str_eqb a b = str_eqb b a.
Proof.
  unfold str_eqb.
  destruct (list_eq_dec ascii_dec a b), (list_eq_dec ascii_dec b a);
    congruence.
Qed.

Lemma endswith_app (a b : str) : endswith (a ++ b) b = true.
Proof.
  unfold endswith. rewrite length_app.
  replace (length a + length b - length b) with (length a) by lia.
  rewrite skipn_app, Nat.sub_diag, skipn_all. simpl.
  rewrite str_eqb_refl.
  apply andb_true_iff. split; [apply Nat.leb_le; lia | reflexivity].
Qed.

Lemma endswith_split (s suffix : str) :
  endswith s suffix = true ->
  s = drop_last (length suffix) s ++ suffix
  /\ length suffix <= length s.
Proof.
  unfold endswith, drop_last. intros H.
  apply andb_true_iff in H. destruct H as [Hlen Heq].
  apply Nat.leb_le in Hlen. apply str_eqb_eq in Heq.
  split; [|exact Hlen].
  rewrite <- (firstn_skipn (length s - length suffix) s) at 1.
  now rewrite Heq.
Qed.

(** ** The filename normalizer *)

Lemma strip_app_cover (p m : str) :
  lower m = cover_marker -> strip (p ++ m) = lstrip p ++ m.
Proof.
  intros Hm.
  destruct m as [|c1 [|c2 [|c3 [|c4 [|c5 [|c6 [|c7 m]]]]]]];
    try discriminate Hm.
  injection Hm as H1 _ _ _ _ H6.
  assert (N1 : isspace c1 = false)
    by (rewrite <- isspace_lower_char, H1; reflexivity).
  assert (N6 : isspace c6 = false)
    by (rewrite <- isspace_lower_char, H6; reflexivity).
  unfold strip. rewrite lstrip_app_nonspace by exact N1.
  change (lstrip p ++ [c1; c2; c3; c4; c5; c6])
    with (lstrip p ++ [c1; c2; c3; c4; c5] ++ c6 :: []).
  rewrite app_assoc. now rewrite rstrip_app_nonspace by exact N6.
Qed.

Lemma normalize_stem_app_cover (p m : str) :
  lower m = cover_marker -> normalize_stem (p ++ m) = strip p.
Proof.
  intros Hm. unfold normalize_stem.
  rewrite (strip_app_cover p m Hm), lower_app, Hm, endswith_app.
  unfold drop_last. rewrite length_app.
  assert (Hl : length m = length cover_marker)
    by (now rewrite <- Hm, lower_length).
  rewrite Hl.
  replace (length (lstrip p) + length cover_marker - length cover_marker)
    with (length (lstrip p) + 0) by lia.
  rewrite firstn_app_2. simpl. rewrite app_nil_r. apply strip_lstrip.
Qed.

Lemma normalize_stem_stripped (stem : str) :
  strip (normalize_stem stem) = normalize_stem stem.
Proof. unfold normalize_stem. apply strip_idem. Qed.

Lemma endswith_lower_cover (s : str) :
  endswith (lower s) cover_marker = true ->
  s = drop_last (length cover_marker) s
        ++ skipn (length s - length cover_marker) s
  /\ lower (skipn (length s - length cover_marker) s) = cover_marker
  /\ length cover_marker <= length s.
Proof.
  unfold endswith. rewrite lower_length. intros H.
  apply andb_true_iff in H. destruct H as [Hlen Heq].
  apply Nat.leb_le in Hlen. apply str_eqb_eq in Heq.
  unfold lower in Heq. rewrite skipn_map in Heq.
  repeat split; [|exact Heq|exact Hlen].
  unfold drop_last. symmetry. apply firstn_skipn.
Qed.

Lemma normalize_stem_shrinks (n : str) :
  endswith (lower n) cover_marker = true ->
  length (normalize_stem n) < length n.
Proof.
  intros H. apply endswith_lower_cover in H.
  destruct H as (Hn & Hm & Hlen).
  rewrite Hn at 1. rewrite (normalize_stem_app_cover _ _ Hm).
  eapply Nat.le_lt_trans; [apply strip_length|].
  unfold drop_last. rewrite length_firstn. simpl in *. lia.
Qed.

(** C1, as the code has it: normalizing once more changes nothing exactly
    when the normalized stem does not itself end, in any case, with the
    cover marker; and a stem that ends with the marker in any case loses
    exactly that suffix, the rest being stripped of surrounding
    whitespace. *)
Theorem normalize_stem_idempotent_iff (stem : str) :
  (normalize_stem (normalize_stem stem) = normalize_stem stem
   <-> endswith (lower (normalize_stem stem)) cover_marker = false)
  /\ (endswith (lower stem) cover_marker = true ->
      normalize_stem stem = strip (drop_last (length cover_marker) stem)).
Proof.
  split; [split|].
  - intros Hfix.
    destruct (endswith (lower (normalize_stem stem)) cover_marker) eqn:E;
      [|reflexivity].
    apply normalize_stem_shrinks in E. rewrite Hfix in E. lia.
  - intros E. unfold normalize_stem at 1.
    rewrite normalize_stem_stripped, E. apply normalize_stem_stripped.
  - intros E. apply endswith_lower_cover in E.
    destruct E as (Hn & Hm & _).
    rewrite Hn at 1. apply (normalize_stem_app_cover _ _ Hm).
Qed.

Lemma normalize_stem_idempotent_iff_witness :
  normalize_stem (normalize_stem (lit " Beta.COVER"))
  = normalize_stem (lit " Beta.COVER")
  /\ normalize_stem (lit " Beta.COVER")
     = strip (drop_last (length cover_marker) (lit " Beta.COVER")).
Proof.
  destruct (normalize_stem_idempotent_iff (lit " Beta.COVER")) as [[_ H1] H2].
  split; [apply H1 | apply H2]; reflexivity.
Defined.

(** C1 as stated fails: a stem that carries the marker twice keeps one
    after the first pass and loses it in the second. *)
Lemma normalize_stem_not_idempotent :
  normalize_stem (normalize_stem (lit "a.cover.cover"))
  <> normalize_stem (lit "a.cover.cover").
Proof. discriminate. Qed.

(** ** The order on strings *)

Lemma ord_inj (x y : ascii) : ord x = ord y -> x = y.
Proof.
  unfold ord. intros H.
  rewrite <- (ascii_N_embedding x), <- (ascii_N_embedding y).
  now rewrite H.
Qed.

Lemma str_leb_refl (a : str) : str_leb a a = true.
Proof.
  induction a as [|x a IH]; simpl; [reflexivity|].
  now rewrite N.ltb_irrefl.
Qed.

Lemma str_leb_total (a b : str) : str_leb a b = false -> str_leb b a = true.
Proof.
  revert b. induction a as [|x a IH]; intros [|y b]; simpl;
    try discriminate; try reflexivity.
  destruct (ord x <? ord y)%N eqn:Exy; [discriminate|].
  destruct (ord y <? ord x)%N eqn:Eyx; [reflexivity|].
  apply IH.
Qed.

Lemma str_leb_antisym (a b : str) :
  str_leb a b = true -> str_leb b a = true -> a = b.
Proof.
  revert b. induction a as [|x a IH]; intros [|y b]; simpl;
    try discriminate; try reflexivity.
  destruct (ord x <? ord y)%N eqn:Exy, (ord y <? ord x)%N eqn:Eyx;
    try discriminate.
  - apply N.ltb_lt in Exy, Eyx. lia.
  - intros H1 H2. apply N.ltb_ge in Exy, Eyx.
    f_equal; [apply ord_inj; lia | now apply IH].
Qed.

Lemma str_leb_trans (a b c : str) :
  str_leb a b = true -> str_leb b c = true -> str_leb a c = true.
Proof.
  revert b c. induction a as [|x a IH]; intros [|y b] [|z c]; simpl;
    try discriminate; try reflexivity.
  destruct (ord x <? ord y)%N eqn:Exy, (ord y <? ord x)%N eqn:Eyx,
           (ord y <? ord z)%N eqn:Eyz, (ord z <? ord y)%N eqn:Ezy,
           (ord x <? ord z)%N eqn:Exz, (ord z <? ord x)%N eqn:Ezx;
    try discriminate; try reflexivity;
    repeat match goal with
           | H : (_ <? _)%N = true |- _ => apply N.ltb_lt in H
           | H : (_ <? _)%N = false |- _ => apply N.ltb_ge in H
           end; try lia.
  apply IH.
Qed.

(** ** Stable sorting by a key *)

Section Sorting.

Context {A : Type} (key : A -> str).

Lemma insert_by_perm (x : A) (l : list A) :
  Permutation (insert_by key x l) (x :: l).
Proof.
  induction l as [|y l IH]; simpl; [reflexivity|].
  destruct (str_leb (key x) (key y)); [reflexivity|].
  rewrite IH. apply perm_swap.
Qed.

Lemma sorted_perm (l : list A) : Permutation (sorted key l) l.
Proof.
  induction l as [|x l IH]; simpl; [reflexivity|].
  rewrite insert_by_perm. now constructor.
Qed.

Lemma insert_by_sorted (x : A) (l : list A) :
  StronglySorted (key_le key) l -> StronglySorted (key_le key) (insert_by key x l).
Proof.
  induction 1 as [|y l Hs IH Hy]; simpl.
  - repeat constructor.
  - destruct (str_leb (key x) (key y)) eqn:E.
    + constructor; [now constructor|].
      constructor; [exact E|].
      eapply Forall_impl; [|exact Hy].
      intros z Hz. unfold key_le in *. eapply str_leb_trans; eassumption.
    + constructor; [exact IH|].
      rewrite (Forall_forall (key_le key y)). intros z Hz.
      apply (Permutation_in _ (insert_by_perm x l)) in Hz.
      destruct Hz as [<- | Hz].
      * now apply str_leb_total.
      * rewrite Forall_forall in Hy. now apply Hy.
Qed.

Lemma sorted_sorted (l : list A) : StronglySorted (key_le key) (sorted key l).
Proof.
  induction l as [|x l IH]; simpl; [constructor|].
  now apply insert_by_sorted.
Qed.

(** Two sorted arrangements of the same elements coincide when no two
    distinct elements have the same key. *)
Lemma strongly_sorted_unique (l l' : list A) :
  (forall x y, In x l -> In y l -> key x = key y -> x = y) ->
  Permutation l l' ->
  StronglySorted (key_le key) l -> StronglySorted (key_le key) l' -> l = l'.
Proof.
  revert l'. induction l as [|a l IH]; intros l' Hinj Hp Hs Hs'.
  - apply Permutation_nil in Hp. now subst.
  - destruct l' as [|b l'].
    { apply Permutation_sym, Permutation_nil in Hp. discriminate. }
    assert (Hab : a = b).
    { assert (Ha : In a (b :: l'))
        by (apply (Permutation_in _ Hp); now left).
      assert (Hb : In b (a :: l))
        by (apply (Permutation_in _ (Permutation_sym Hp)); now left).
      destruct Ha as [Ha | Ha]; [now symmetry|].
      destruct Hb as [Hb | Hb]; [exact Hb|].
      apply StronglySorted_inv in Hs, Hs'.
      destruct Hs as [_ Hs], Hs' as [_ Hs'].
      rewrite Forall_forall in Hs, Hs'.
      apply Hinj; [now left | now right |].
      apply str_leb_antisym; [now apply Hs | now apply Hs']. }
    subst b. f_equal.
    apply IH.
    + intros x y Hx Hy. apply Hinj; now right.
    + eapply Permutation_cons_inv; exact Hp.
    + now apply StronglySorted_inv in Hs.
    + now apply StronglySorted_inv in Hs'.
Qed.

Lemma sorted_perm_eq (l l' : list A) :
  (forall x y, In x l -> In y l -> key x = key y -> x = y) ->
  Permutation l l' -> sorted key l = sorted key l'.
Proof.
  intros Hinj Hp. apply strongly_sorted_unique.
  - intros x y Hx Hy. apply Hinj; eapply Permutation_in;
      try apply sorted_perm; assumption.
  - rewrite sorted_perm, Hp. symmetry. apply sorted_perm.
  - apply sorted_sorted.
  - apply sorted_sorted.
Qed.

End Sorting.

(** ** Grouping into a dictionary *)

Lemma Permutation_filter {A} (f : A -> bool) (l l' : list A) :
  Permutation l l' -> Permutation (filter f l) (filter f l').
Proof.
  induction 1 as [|x l l' _ IH|x y l|l l' l'' _ IH1 _ IH2]; simpl.
  - constructor.
  - destruct (f x); [now constructor | exact IH].
  - destruct (f x), (f y); try reflexivity. apply perm_swap.
  - now rewrite IH1.
Qed.

Section Grouping.

Context {V : Type} (k : V -> str).

Lemma getitem_setdefault_append (d : dict (list V)) (key s : str) (v : V) :
  getitem (setdefault_append d key v) s
  = if str_eqb key s then getitem d s ++ [v] else getitem d s.
Proof.
  induction d as [|[k' g] d IH]; simpl.
  - destruct (str_eqb key s); reflexivity.
  - destruct (str_eqb k' key) eqn:E; simpl.
    + apply str_eqb_eq in E. subst k'.
      destruct (str_eqb key s); reflexivity.
    + rewrite IH. destruct (str_eqb k' s) eqn:E'; [|reflexivity].
      apply str_eqb_eq in E'. subst k'. now rewrite str_eqb_sym, E.
Qed.

Lemma getitem_group_from (items : list V) (d : dict (list V)) (s : str) :
  getitem (group_from k items d) s
  = getitem d s ++ filter (fun v => str_eqb (k v) s) items.
Proof.
  revert d. induction items as [|v items IH]; intros d; simpl.
  - now rewrite app_nil_r.
  - unfold group_from in *. simpl. rewrite IH, getitem_setdefault_append.
    destruct (str_eqb (k v) s); [now rewrite <- app_assoc | reflexivity].
Qed.

Lemma keys_setdefault_append (d : dict (list V)) (key : str) (v : V) :
  keys (setdefault_append d key v)
  = if str_in key (keys d) then keys d else keys d ++ [key].
Proof.
  unfold keys. induction d as [|[k' g] d IH]; simpl; [reflexivity|].
  destruct (str_eqb k' key) eqn:E; simpl.
  - apply str_eqb_eq in E. subst k'. now rewrite str_eqb_refl.
  - rewrite str_eqb_sym, E. simpl. rewrite IH.
    now destruct (str_in key (map fst d)).
Qed.

Lemma str_in_In (s : str) (l : list str) : str_in s l = true <-> In s l.
Proof.
  unfold str_in. rewrite existsb_exists. split.
  - intros (x & Hx & E). apply str_eqb_eq in E. now subst.
  - intros H. exists s. split; [exact H | apply str_eqb_refl].
Qed.

Lemma keys_group_from_In (items : list V) (d : dict (list V)) (s : str) :
  In s (keys (group_from k items d)) <-> In s (keys d) \/ In s (map k items).
Proof.
  revert d. induction items as [|v items IH]; intros d; simpl.
  - tauto.
  - unfold group_from in *. simpl. rewrite IH, keys_setdefault_append.
    destruct (str_in (k v) (keys d)) eqn:E.
    + apply str_in_In in E. split; [|intros [H|[<-|H]]; auto]. tauto.
    + rewrite in_app_iff. simpl. tauto.
Qed.

Lemma keys_group_from_NoDup (items : list V) (d : dict (list V)) :
  NoDup (keys d) -> NoDup (keys (group_from k items d)).
Proof.
  revert d. induction items as [|v items IH]; intros d Hd; simpl;
    [exact Hd|].
  unfold group_from in *. simpl. apply IH.
  rewrite keys_setdefault_append.
  destruct (str_in (k v) (keys d)) eqn:E; [exact Hd|].
  apply NoDup_app; [exact Hd | repeat constructor; intros [] |].
  intros x Hx [<-|[]].
  apply str_in_In in Hx. congruence.
Qed.

Lemma keys_group_from_perm (items items' : list V) :
  Permutation items items' ->
  Permutation (keys (group_from k items [])) (keys (group_from k items' [])).
Proof.
  intros Hp. apply NoDup_Permutation.
  - apply keys_group_from_NoDup. constructor.
  - apply keys_group_from_NoDup. constructor.
  - intros s. rewrite !keys_group_from_In. simpl.
    split; intros [[]|H]; right;
      eapply Permutation_in; try exact H;
      [apply Permutation_map; exact Hp
      |apply Permutation_map, Permutation_sym; exact Hp].
Qed.

End Grouping.

(** ** The pair builder *)

Lemma Path_eqb_eq (p q : Path) : Path_eqb p q = true <-> p = q.
Proof.
  unfold Path_eqb. rewrite andb_true_iff, !str_eqb_eq.
  destruct p, q; simpl. split; [intros [-> ->]; reflexivity|].
  intros H. injection H as -> ->. split; reflexivity.
Qed.

Lemma tie_free_no_ties (items : list Path) :
  tie_free items = true -> no_ties items.
Proof.
  unfold tie_free, no_ties. intros H p q Hp Hq.
  rewrite forallb_forall in H. specialize (H p Hp).
  rewrite forallb_forall in H. specialize (H q Hq).
  apply andb_true_iff in H. destruct H as [H1 H2].
  unfold same_stem in *. fold (stem_key p) (stem_key q) in *.
  fold (suffix_key p) (suffix_key q) in *.
  split.
  - intros E. apply str_eqb_eq.
    apply <- str_eqb_eq in E. rewrite E in H1. exact H1.
  - intros E1 E2. apply Path_eqb_eq.
    apply <- str_eqb_eq in E1. apply <- str_eqb_eq in E2.
    rewrite E1, E2 in H2. exact H2.
Qed.

Lemma group_by_stem_from (items : list Path) :
  group_by_stem items = group_from stem_key items [].
Proof. reflexivity. Qed.

Lemma items_of_perm (entries entries' : list DirEntry) :
  Permutation entries entries' ->
  Permutation (items_of entries) (items_of entries').
Proof.
  intros H. unfold items_of. now apply Permutation_map, Permutation_filter.
Qed.

Lemma fold_pair_step_ext (d d' : dict (list Path)) (ks : list str)
  (acc : list Pair * list str) :
  (forall s, In s ks ->
     sorted suffix_key (getitem d s) = sorted suffix_key (getitem d' s)) ->
  fold_left (pair_step d) ks acc = fold_left (pair_step d') ks acc.
Proof.
  revert acc. induction ks as [|s ks IH]; intros acc H; simpl;
    [reflexivity|].
  assert (E : pair_step d acc s = pair_step d' acc s).
  { unfold pair_step. destruct acc as [ps ms].
    fold suffix_key. now rewrite (H s (or_introl eq_refl)). }
  rewrite E. apply IH. intros s' Hs'. apply H. now right.
Qed.

(** The listing order does not matter when it has no ties. *)
Lemma build_pairs_perm (entries entries' : list DirEntry) :
  Permutation entries entries' ->
  no_ties (items_of entries) ->
  build_pairs entries' = build_pairs entries.
Proof.
  intros Hp Hties. unfold build_pairs.
  apply items_of_perm in Hp.
  set (items := items_of entries) in *.
  set (items' := items_of entries') in *.
  rewrite !group_by_stem_from.
  assert (Hk : sorted lower (keys (group_from stem_key items' []))
               = sorted lower (keys (group_from stem_key items []))).
  { symmetry. apply sorted_perm_eq.
    - intros x y Hx Hy E.
      apply keys_group_from_In in Hx, Hy.
      destruct Hx as [[]|Hx], Hy as [[]|Hy].
      apply in_map_iff in Hx, Hy.
      destruct Hx as (p & <- & Hp'), Hy as (q & <- & Hq').
      now apply (Hties p q Hp' Hq').
    - now apply keys_group_from_perm. }
  rewrite Hk. apply fold_pair_step_ext.
  intros s _. rewrite !getitem_group_from. simpl.
  symmetry. apply sorted_perm_eq.
  - intros x y Hx Hy E.
    apply filter_In in Hx, Hy.
    destruct Hx as [Hx Ex], Hy as [Hy Ey].
    apply str_eqb_eq in Ex, Ey.
    apply (Hties x y Hx Hy); congruence.
  - now apply Permutation_filter.
Qed.

Lemma StronglySorted_filter {A} (R : A -> A -> Prop) (f : A -> bool)
  (l : list A) :
  StronglySorted R l -> StronglySorted R (filter f l).
Proof.
  induction 1 as [|x l Hs IH Hx]; simpl; [constructor|].
  destruct (f x); [|exact IH].
  constructor; [exact IH|].
  rewrite Forall_forall in *. intros y Hy.
  apply filter_In in Hy. now apply Hx.
Qed.

(** What the second loop of [build_pairs] appends: the stems that have an
    image and a book go to [pairs], the others to [missing], in order. *)
Lemma fold_pair_step_stems (d : dict (list Path)) (ks : list str)
  (ps : list Pair) (ms : list str) :
  map pair_stem (fst (fold_left (pair_step d) ks (ps, ms)))
  = map pair_stem ps ++ filter (paired d) ks
  /\ snd (fold_left (pair_step d) ks (ps, ms))
     = ms ++ filter (fun s => negb (paired d s)) ks.
Proof.
  revert ps ms. induction ks as [|s ks IH]; intros ps ms; simpl.
  - now rewrite !app_nil_r.
  - pose proof (eq_refl : paired d s = paired d s) as E.
    unfold paired at 2 in E. fold suffix_key in *.
    destruct (filter is_image (sorted suffix_key (getitem d s)))
      as [|cover covers].
    { rewrite E. simpl. destruct (IH ps (ms ++ [s])) as [I1 I2].
      rewrite I1, I2, <- app_assoc. split; reflexivity. }
    destruct (filter (fun p => negb (is_image p))
                (sorted suffix_key (getitem d s))) as [|book books].
    { rewrite E. simpl. destruct (IH ps (ms ++ [s])) as [I1 I2].
      rewrite I1, I2, <- app_assoc. split; reflexivity. }
    rewrite E. simpl.
    destruct (IH (ps ++ [(s, cover, book)]) ms) as [J1 J2].
    rewrite J1, J2, map_app, <- app_assoc. split; reflexivity.
Qed.

Lemma build_pairs_sorted (entries : list DirEntry) :
  StronglySorted (key_le lower) (map pair_stem (fst (build_pairs entries))).
Proof.
  unfold build_pairs.
  destruct (fold_pair_step_stems (group_by_stem (items_of entries))
              (sorted lower (keys (group_by_stem (items_of entries))))
              [] []) as [E _].
  rewrite E. simpl. apply StronglySorted_filter, sorted_sorted.
Qed.

(** C4, as the code has it: when no two stems of the directory differ
    only in case and no two files of one stem have the same extension up to
    case, every order of listing the same files gives the same pairs and
    the same missing stems, and the pairs come sorted by stem without
    regard to case. *)
Theorem build_pairs_deterministic (entries entries' : list DirEntry) :
  Permutation entries entries' ->
  tie_free (items_of entries) = true ->
  build_pairs entries' = build_pairs entries
  /\ StronglySorted (key_le lower)
       (map pair_stem (fst (build_pairs entries'))).
Proof.
  intros Hp Hties. split.
  - apply build_pairs_perm; [exact Hp | now apply tie_free_no_ties].
  - apply build_pairs_sorted.
Qed.

Lemma build_pairs_deterministic_witness :
  build_pairs (rev (example_listing (lit "books")))
  = build_pairs (example_listing (lit "books"))
  /\ StronglySorted (key_le lower)
       (map pair_stem
          (fst (build_pairs (rev (example_listing (lit "books")))))).
Proof.
  apply build_pairs_deterministic; [apply Permutation_rev | reflexivity].
Defined.

(** C4 as stated fails: with [x.jpg] and [x.cover.jpg] beside [x.pdf],
    the cover chosen for [x] is the one the directory lists first. *)
Lemma build_pairs_order_dependent :
  Permutation two_covers two_covers_relisted
  /\ build_pairs two_covers <> build_pairs two_covers_relisted.
Proof.
  split; [apply perm_swap | discriminate].
Qed.

Lemma example_listing_no_ties (folder : str) :
  no_ties (items_of (example_listing folder)).
Proof.
  intros p q Hp Hq. simpl in Hp, Hq.
  repeat match goal with
         | H : _ \/ _ |- _ => destruct H as [<- | H]
         | H : False |- _ => destruct H
         end;
    (split; [intros E | intros E1 E2]);
    try reflexivity;
    try (vm_compute in E; discriminate E);
    try (vm_compute in E1; discriminate E1);
    try (vm_compute in E2; discriminate E2).
Qed.

(** C5: the directory of the example, in whatever order it is listed,
    gives the pairs of Alpha and Beta, in this order, and Gamma as the
    only missing stem. *)
Theorem build_pairs_example (folder : str) (entries : list DirEntry) :
  Permutation (example_listing folder) entries ->
  build_pairs entries
  = ( [ (lit "Alpha", in_folder folder "Alpha.jpg",
         in_folder folder "Alpha.epub");
        (lit "Beta", in_folder folder "Beta.cover.png",
         in_folder folder "Beta.pdf") ],
      [ lit "Gamma" ] ).
Proof.
  intros Hp.
  rewrite (build_pairs_perm _ _ Hp (example_listing_no_ties folder)).
  reflexivity.
Qed.

Lemma build_pairs_example_witness :
  build_pairs (rev (example_listing (lit "books")))
  = ( [ (lit "Alpha", in_folder (lit "books") "Alpha.jpg",
         in_folder (lit "books") "Alpha.epub");
        (lit "Beta", in_folder (lit "books") "Beta.cover.png",
         in_folder (lit "books") "Beta.pdf") ],
      [ lit "Gamma" ] ).
Proof.
  apply build_pairs_example. apply Permutation_rev.
Defined.

(** ** Running the monad *)

Lemma bind_ok {A B} (m : M A) (k : A -> M B) (w w' : World) (a : A) :
  m w = (Ok a, w') -> bind m k w = k a w'.
Proof. unfold bind. now intros ->. Qed.

Lemma bind_raise {A B} (m : M A) (k : A -> M B) (w w' : World) (e : exn) :
  m w = (Raise e, w') -> bind m k w = (Raise e, w').
Proof. unfold bind. now intros ->. Qed.

Lemma advance_0_nil (w : World) : advance w 0 [] = w.
Proof. destruct w. unfold advance. simpl. now rewrite app_nil_r. Qed.

Lemma advance_advance (w : World) (k k' : nat) (t t' : list event) :
  advance (advance w k t) k' t' = advance w (k' + k) (t ++ t').
Proof.
  unfold advance. simpl. f_equal; [lia | now rewrite app_assoc].
Qed.

Lemma sent_advance (w : World) (k : nat) (t : list event) :
  sent (advance w k t) = sent w ++ filter is_urlopen t.
Proof. unfold sent. simpl. apply filter_app. Qed.

Lemma sent_reads (files : list (str * Path)) :
  filter is_urlopen (reads files) = [].
Proof. induction files as [|f files IH]; simpl; [reflexivity | exact IH]. Qed.

Lemma log_run (e : event) (w : World) : log e w = (Ok tt, advance w 0 [e]).
Proof. reflexivity. Qed.

Lemma draw_run (w : World) :
  draw w = (Ok (entropy w (drawn w)), advance w 1 []).
Proof.
  unfold draw, advance. simpl. now rewrite app_nil_r.
Qed.

Lemma stat_size_run (w : World) (p : Path) (f : File) :
  fs w p = Some f ->
  stat_size p w = (Ok (st_size f), advance w 0 [Stat p]).
Proof.
  intros H. unfold stat_size, bind, log, get_world. simpl. now rewrite H.
Qed.

Lemma stat_size_missing (w : World) (p : Path) :
  fs w p = None ->
  stat_size p w = (Raise (FileNotFoundError p), advance w 0 [Stat p]).
Proof.
  intros H. unfold stat_size, bind, log, get_world. simpl. now rewrite H.
Qed.

Lemma read_bytes_run (w : World) (p : Path) :
  fs w p <> None ->
  read_bytes p w = (Ok (data_of w p), advance w 0 [ReadFile p]).
Proof.
  intros H. unfold read_bytes, bind, log, get_world, data_of. simpl.
  destruct (fs w p); [reflexivity | contradiction].
Qed.

(** ** The multipart encoder *)

Lemma encode_app (a b : str) : encode (a ++ b) = encode a ++ encode b.
Proof. unfold encode. apply flat_map_app. Qed.

Section Encoder.

Variable lib : Libraries.

Lemma field_chunks_part (boundary key value : str) :
  concat (field_chunks boundary key value)
  = field_part boundary (key, value).
Proof.
  unfold field_chunks, field_part, delimiter. cbn [concat fst snd].
  rewrite app_nil_r.
  rewrite !encode_app, <- !app_assoc. reflexivity.
Qed.

Lemma file_chunks_part (w : World) (boundary field_name : str) (p : Path) :
  concat (file_chunks lib boundary field_name p (data_of w p))
  = file_part lib w boundary (field_name, p).
Proof.
  unfold file_chunks, file_part, delimiter. cbn [concat fst snd].
  rewrite app_nil_r.
  rewrite !encode_app, <- !app_assoc. reflexivity.
Qed.

Lemma fold_field_chunks (boundary : str) (fields : dict str)
  (chunks : list bytes) :
  concat
    (fold_left
       (fun chunks '(key, value) => chunks ++ field_chunks boundary key value)
       fields chunks)
  = concat chunks ++ concat (map (field_part boundary) fields).
Proof.
  revert chunks. induction fields as [|[key value] fields IH];
    intros chunks; simpl fold_left.
  - simpl. now rewrite app_nil_r.
  - rewrite IH, concat_app, field_chunks_part, <- app_assoc. reflexivity.
Qed.

Lemma foldM_file_chunks (boundary : str) (files : list (str * Path))
  (chunks : list bytes) (w : World) :
  readable w files ->
  exists chunks',
    foldM
      (fun chunks '(field_name, file_path) =>
         file_data <- read_bytes file_path ;;
         ret (chunks ++ file_chunks lib boundary field_name file_path
                          file_data))
      files chunks w
    = (Ok chunks', advance w 0 (reads files))
    /\ concat chunks'
       = concat chunks ++ concat (map (file_part lib w boundary) files).
Proof.
  revert chunks w. induction files as [|[field_name p] files IH];
    intros chunks w Hr.
  - exists chunks. simpl. rewrite advance_0_nil, app_nil_r. now split.
  - assert (Hp : fs w p <> None) by (apply (Hr field_name); now left).
    destruct (IH (chunks ++ file_chunks lib boundary field_name p
                              (data_of w p))
                 (advance w 0 [ReadFile p])) as (chunks' & Hrun & Hcat).
    { intros fn q Hq. simpl. apply (Hr fn). now right. }
    exists chunks'. split.
    + cbn [foldM].
      erewrite bind_ok;
        [|erewrite bind_ok; [reflexivity | now apply read_bytes_run]].
      rewrite Hrun, advance_advance. reflexivity.
    + rewrite Hcat, concat_app, file_chunks_part, <- app_assoc.
      reflexivity.
Qed.

Lemma encode_multipart_run (fields : dict str) (files : list (str * Path))
  (w : World) :
  readable w files ->
  encode_multipart lib fields files w
  = (Ok (concat (multipart_parts lib w (boundary_of w) fields files)
         ++ closing_delimiter (boundary_of w),
         lit "multipart/form-data; boundary=" ++ boundary_of w),
     advance w 1 (reads files)).
Proof.
  intros Hr. unfold encode_multipart.
  erewrite bind_ok by apply draw_run.
  fold (boundary_of w).
  destruct (foldM_file_chunks (boundary_of w) files
              (fold_left
                 (fun chunks '(key, value) =>
                    chunks ++ field_chunks (boundary_of w) key value)
                 fields [])
              (advance w 1 [])) as (chunks' & Hrun & Hcat).
  { exact Hr. }
  erewrite bind_ok by exact Hrun.
  cbv zeta. unfold ret. rewrite advance_advance.
  assert (Hbody :
    concat (chunks'
            ++ [encode (lit "--" ++ boundary_of w ++ lit "--" ++ crlf)])
    = concat (multipart_parts lib w (boundary_of w) fields files)
      ++ closing_delimiter (boundary_of w)).
  { rewrite concat_app, Hcat, fold_field_chunks. cbn [concat].
    rewrite app_nil_r. unfold multipart_parts, closing_delimiter.
    rewrite concat_app. reflexivity. }
  rewrite Hbody. reflexivity.
Qed.

End Encoder.

(** C7: with every file readable, the body is one part per field followed
    by one part per file and then the closing delimiter; every part opens
    with the line of the one boundary that the content type names; a file
    part carries the base name of the file, the guessed content type
    (the octet-stream type when nothing is guessed) and the bytes of the
    file. *)
Theorem encode_multipart_layout (lib : Libraries) (fields : dict str)
  (files : list (str * Path)) (w : World) :
  readable w files ->
  let boundary := boundary_of w in
  let parts := multipart_parts lib w boundary fields files in
  encode_multipart lib fields files w
  = (Ok (concat parts ++ closing_delimiter boundary,
         lit "multipart/form-data; boundary=" ++ boundary),
     advance w 1 (reads files))
  /\ parts = map (field_part boundary) fields
             ++ map (file_part lib w boundary) files
  /\ length parts = length fields + length files
  /\ Forall (fun part => exists rest, part = delimiter boundary ++ rest) parts
  /\ (forall file, In file files ->
        match guess_type lib (name (snd file)) with
        | Some (c :: guessed) => mime_type_of lib (snd file) = c :: guessed
        | _ => mime_type_of lib (snd file) = lit "application/octet-stream"
        end).
Proof.
  intros Hr boundary parts. repeat split.
  - now apply encode_multipart_run.
  - unfold parts, multipart_parts. now rewrite length_app, !length_map.
  - unfold parts, multipart_parts. apply Forall_app. split;
      apply Forall_forall; intros part Hpart; apply in_map_iff in Hpart;
      destruct Hpart as (x & <- & _); eexists; reflexivity.
  - intros file _. unfold mime_type_of.
    now destruct (guess_type lib (name (snd file))) as [[|c guessed]|].
Qed.

Lemma sample_world_readable (book_size : Z) (answers : nat -> reply)
  (field_name : str) (p : Path) :
  p = sample_cover \/ p = sample_book ->
  readable (sample_world book_size answers) [(field_name, p)].
Proof.
  intros Hp fn q [Hq|[]]. injection Hq as _ <-.
  destruct Hp as [-> | ->]; discriminate.
Qed.

Lemma encode_multipart_layout_witness :
  exists body content_type w',
    encode_multipart sample_lib [(lit "chat_id", lit "123")]
      [(lit "document", sample_book)] (sample_world 2 (fun _ => accepted))
    = (Ok (body, content_type), w')
    /\ content_type
       = lit "multipart/form-data; boundary=----TelegramBoundary0123456789abcdef0123456789abcdef".
Proof.
  destruct (encode_multipart_layout sample_lib [(lit "chat_id", lit "123")]
              [(lit "document", sample_book)]
              (sample_world 2 (fun _ => accepted))) as (H & _).
  - apply sample_world_readable. now right.
  - eexists _, _, _. split; [exact H | reflexivity].
Defined.

(** ** The API client *)

Section Client.

Variable cfg : Config.
Variable lib : Libraries.

Lemma telegram_call_run (method : str) (fields : dict str)
  (files : list (str * Path)) (w : World) :
  readable w files ->
  let req := request_of cfg lib w method fields files in
  telegram_call cfg lib method fields files w
  = (reply_result (remote w (length (sent w)) req),
     advance w 1 (reads files ++ [UrlOpen req])).
Proof.
  intros Hr req. unfold telegram_call.
  erewrite bind_ok by (now apply encode_multipart_run).
  subst req. unfold request_of. cbv zeta.
  set (req := {| req_url := _; req_data := _; req_headers := _;
                 req_method := _; req_timeout := _ |}).
  unfold bind at 1, urlopen.
  rewrite sent_advance, sent_reads, app_nil_r.
  change (remote (advance w 1 (reads files))) with (remote w).
  assert (Hw : with_trace (advance w 1 (reads files))
                 (trace (advance w 1 (reads files)) ++ [UrlOpen req])
               = advance w 1 (reads files ++ [UrlOpen req])).
  { unfold with_trace, advance. simpl. now rewrite app_assoc. }
  rewrite Hw.
  destruct (remote w (length (sent w)) req) as [code details|text|text|payload];
    simpl; try reflexivity.
  - now destruct (code =? 413)%Z.
  - now destruct (ok payload).
Qed.

End Client.

(** ** One pair *)

Lemma Path_eqb_refl (p : Path) : Path_eqb p p = true.
Proof. now apply Path_eqb_eq. Qed.

Lemma size_within (n limit : Z) : (n <= limit)%Z -> (n >? limit)%Z = false.
Proof. intros H. rewrite Z.gtb_ltb. now apply Z.ltb_ge. Qed.

Section Pair.

Variable cfg : Config.
Variable lib : Libraries.

Lemma readable_one (w : World) (field_name : str) (p : Path) (f : File) :
  fs w p = Some f -> readable w [(field_name, p)].
Proof.
  intros H fn q [Hq|[]]. injection Hq as _ <-. congruence.
Qed.

(** The block of the pair on the image it gets: the stat and the photo
    call. *)
Lemma photo_block_run (stem : str) (ready : Path) (w : World) (cover : File) :
  fs w ready = Some cover ->
  (st_size cover <= MAX_FILE_SIZE_BYTES cfg)%Z ->
  let w1 := advance w 0 [Stat ready] in
  let photo :=
    request_of cfg lib w1 (lit "sendPhoto") (photo_fields cfg stem)
      [(lit "photo", ready)] in
  let w2 := advance w1 1 [ReadFile ready; UrlOpen photo] in
  (image_size <- stat_size ready ;;
   if (image_size >? MAX_FILE_SIZE_BYTES cfg)%Z
   then raise (TelegramRequestTooLargeError
                 (lit "Image is too large: " ++ name ready
                  ++ lit " (" ++ format_size image_size ++ lit ")"))
   else
     telegram_call cfg lib (lit "sendPhoto")
       [(lit "chat_id", CHANNEL_ID cfg); (lit "caption", stem)]
       [(lit "photo", ready)] ;;
     ret tt) w
  = match reply_result (remote w (length (sent w)) photo) with
    | Raise e => (Raise e, w2)
    | Ok _ => (Ok tt, w2)
    end.
Proof.
  intros Hc Hcs w1 photo w2.
  erewrite bind_ok by (apply stat_size_run; exact Hc).
  rewrite (size_within _ _ Hcs). fold w1.
  unfold bind at 1.
  rewrite (telegram_call_run cfg lib _ _ _ w1 (readable_one w1 _ _ _ Hc)).
  fold (photo_fields cfg stem). fold photo.
  assert (Hs : length (sent w1) = length (sent w)).
  { unfold w1. rewrite sent_advance. simpl. now rewrite app_nil_r. }
  rewrite Hs. change (remote w1) with (remote w).
  change (advance w1 1 (reads [(lit "photo", ready)] ++ [UrlOpen photo]))
    with w2.
  now destruct (reply_result (remote w (length (sent w)) photo)).
Qed.

(** The document call of the pair, in the world the photo leaves. *)
Lemma document_call_run (book_path : Path) (w : World) (book : File) :
  fs w book_path = Some book ->
  let document :=
    request_of cfg lib w (lit "sendDocument") (document_fields cfg)
      [(lit "document", book_path)] in
  let w' := advance w 1 [ReadFile book_path; UrlOpen document] in
  (telegram_call cfg lib (lit "sendDocument")
     [(lit "chat_id", CHANNEL_ID cfg)] [(lit "document", book_path)] ;;
   ret tt) w
  = match reply_result (remote w (length (sent w)) document) with
    | Raise e => (Raise e, w')
    | Ok _ => (Ok tt, w')
    end.
Proof.
  intros Hb document w'. unfold bind at 1.
  rewrite (telegram_call_run cfg lib _ _ _ w (readable_one w _ _ _ Hb)).
  fold (document_fields cfg). fold document.
  change (advance w 1 (reads [(lit "document", book_path)]
                       ++ [UrlOpen document])) with w'.
  now destruct (reply_result (remote w (length (sent w)) document)).
Qed.

(** The run of a pair whose image is sent as it is and that reaches its
    first call: two stats, the photo call and, if that returns, the
    document call. *)
Lemma upload_pair_run_plain (stem : str) (image_path book_path : Path)
  (w : World) (book cover : File) :
  needs_conversion image_path = false ->
  fs w book_path = Some book ->
  (st_size book <= MAX_FILE_SIZE_BYTES cfg)%Z ->
  fs w image_path = Some cover ->
  (st_size cover <= MAX_FILE_SIZE_BYTES cfg)%Z ->
  let w1 := advance w 0 [Stat book_path; Stat image_path] in
  let photo :=
    request_of cfg lib w1 (lit "sendPhoto") (photo_fields cfg stem)
      [(lit "photo", image_path)] in
  let w2 := advance w1 1 [ReadFile image_path; UrlOpen photo] in
  let document :=
    request_of cfg lib w2 (lit "sendDocument") (document_fields cfg)
      [(lit "document", book_path)] in
  let w3 := advance w2 1 [ReadFile book_path; UrlOpen document] in
  upload_pair cfg lib stem image_path book_path w
  = match reply_result (remote w (length (sent w)) photo) with
    | Raise e => (Raise e, w2)
    | Ok _ =>
        match reply_result (remote w (S (length (sent w))) document) with
        | Raise e => (Raise e, w3)
        | Ok _ => (Ok tt, w3)
        end
    end.
Proof.
  intros Hconv Hb Hbs Hc Hcs w1 photo w2 document w3.
  unfold upload_pair.
  erewrite bind_ok by (apply stat_size_run; exact Hb).
  rewrite (size_within _ _ Hbs).
  unfold prepared_image_for_upload. fold (needs_conversion image_path).
  rewrite Hconv. cbn [negb].
  set (wa := advance w 0 [Stat book_path]).
  assert (Hca : fs wa image_path = Some cover) by exact Hc.
  pose proof (photo_block_run stem image_path wa cover Hca Hcs) as E1.
  cbv zeta in E1.
  assert (Hsa : length (sent wa) = length (sent w)).
  { unfold wa. rewrite sent_advance. simpl. now rewrite app_nil_r. }
  rewrite Hsa in E1. change (remote wa) with (remote w) in E1.
  assert (Hw1 : advance wa 0 [Stat image_path] = w1).
  { unfold wa, w1. now rewrite advance_advance. }
  rewrite Hw1 in E1. fold photo in E1. fold w2 in E1.
  unfold bind at 1. rewrite E1.
  destruct (reply_result (remote w (length (sent w)) photo)) as [p|e];
    [|reflexivity].
  assert (Hb2 : fs w2 book_path = Some book) by exact Hb.
  pose proof (document_call_run book_path w2 book Hb2) as E2.
  cbv zeta in E2. fold document in E2. fold w3 in E2.
  assert (Hs : length (sent w2) = S (length (sent w))).
  { unfold w2, w1. rewrite !sent_advance. simpl.
    rewrite app_nil_r, length_app. simpl. lia. }
  rewrite Hs in E2. change (remote w2) with (remote w) in E2.
  exact E2.
Qed.

(** The run of the preparer on an image that is converted. *)
Lemma prepared_image_run {A} (image_path : Path) (stem : str)
  (body : Path -> M A) (w : World) (jpeg : bytes) :
  needs_conversion image_path = true ->
  convert_image lib w image_path = Ok jpeg ->
  let jpg_path := jpg_path_of lib w stem in
  let w1 :=
    converted w jpg_path jpeg
      [ MkTemp (temp_dir_of lib w); ImageOpen image_path;
        ImageSave jpg_path (lit "JPEG") 90 true ] in
  prepared_image_for_upload lib image_path stem body w
  = (fst (body jpg_path w1),
     removed (snd (body jpg_path w1)) jpg_path [RmTemp (temp_dir_of lib w)]).
Proof.
  intros Hconv Hjpeg jpg_path w1. unfold convert_image in Hjpeg.
  destruct (fs w image_path) as [cover|] eqn:Hf; [|discriminate].
  destruct (Image_open lib (content cover)) as [src|] eqn:Hopen;
    [|discriminate].
  destruct (Image_convert lib src (lit "RGB")) as [rgb|] eqn:Hrgb;
    [|discriminate].
  destruct (Image_save lib rgb (lit "JPEG") 90 true) as [saved|] eqn:Hsave;
    [|discriminate].
  injection Hjpeg as ->.
  unfold prepared_image_for_upload.
  fold (needs_conversion image_path). rewrite Hconv. cbn [negb].
  fold (safe_name_of stem).
  erewrite bind_ok by apply draw_run. cbv zeta.
  fold (temp_dir_of lib w). fold (jpg_path_of lib w stem). fold jpg_path.
  erewrite bind_ok by apply log_run.
  unfold finally.
  erewrite bind_ok by apply log_run.
  erewrite bind_ok by reflexivity.
  cbn [fs advance]. rewrite Hf.
  erewrite bind_ok by reflexivity.
  rewrite Hopen. erewrite bind_ok by reflexivity.
  rewrite Hrgb. erewrite bind_ok by reflexivity.
  rewrite Hsave. erewrite bind_ok by reflexivity.
  erewrite bind_ok by apply log_run.
  erewrite bind_ok by reflexivity.
  match goal with
  | |- (let (r, w') := body jpg_path ?x in _) = _ =>
      assert (Hw : x = w1)
  end.
  { unfold w1, converted, with_fs, advance. simpl.
    now rewrite app_nil_r, <- !app_assoc. }
  rewrite Hw. destruct (body jpg_path w1) as [r w2]. reflexivity.
Qed.

(** The run of a pair whose image is converted and that reaches its first
    call: the stat of the book, the conversion, the stat of the JPEG, the
    photo call, the removal of the temporary directory and, if the photo
    call returned, the document call. *)
Lemma upload_pair_run_converted (stem : str) (image_path book_path : Path)
  (w : World) (book : File) (jpeg : bytes) :
  needs_conversion image_path = true ->
  fs w book_path = Some book ->
  (st_size book <= MAX_FILE_SIZE_BYTES cfg)%Z ->
  convert_image lib w image_path = Ok jpeg ->
  (Z.of_nat (length jpeg) <= MAX_FILE_SIZE_BYTES cfg)%Z ->
  fs w (jpg_path_of lib w stem) = None ->
  let tmp_dir := temp_dir_of lib w in
  let jpg_path := jpg_path_of lib w stem in
  let w1 :=
    advance
      (converted (advance w 0 [Stat book_path]) jpg_path jpeg
         [ MkTemp tmp_dir; ImageOpen image_path;
           ImageSave jpg_path (lit "JPEG") 90 true ])
      0 [Stat jpg_path] in
  let photo :=
    request_of cfg lib w1 (lit "sendPhoto") (photo_fields cfg stem)
      [(lit "photo", jpg_path)] in
  let w2 :=
    removed (advance w1 1 [ReadFile jpg_path; UrlOpen photo]) jpg_path
      [RmTemp tmp_dir] in
  let document :=
    request_of cfg lib w2 (lit "sendDocument") (document_fields cfg)
      [(lit "document", book_path)] in
  let w3 := advance w2 1 [ReadFile book_path; UrlOpen document] in
  upload_pair cfg lib stem image_path book_path w
  = match reply_result (remote w (length (sent w)) photo) with
    | Raise e => (Raise e, w2)
    | Ok _ =>
        match reply_result (remote w (S (length (sent w))) document) with
        | Raise e => (Raise e, w3)
        | Ok _ => (Ok tt, w3)
        end
    end.
Proof.
  intros Hconv Hb Hbs Hjpeg Hjs Hfresh tmp_dir jpg_path w1 photo w2 document w3.
  unfold upload_pair.
  erewrite bind_ok by (apply stat_size_run; exact Hb).
  rewrite (size_within _ _ Hbs).
  set (wa := advance w 0 [Stat book_path]).
  assert (Hja : convert_image lib wa image_path = Ok jpeg) by exact Hjpeg.
  unfold bind at 1.
  rewrite (prepared_image_run image_path stem _ wa jpeg Hconv Hja).
  change (jpg_path_of lib wa stem) with jpg_path.
  change (temp_dir_of lib wa) with tmp_dir.
  set (wc := converted wa jpg_path jpeg
               [ MkTemp tmp_dir; ImageOpen image_path;
                 ImageSave jpg_path (lit "JPEG") 90 true ]).
  assert (Hc : fs wc jpg_path
               = Some {| st_size := Z.of_nat (length jpeg);
                         content := jpeg |}).
  { unfold wc, converted. cbn [fs]. now rewrite Path_eqb_refl. }
  pose proof (photo_block_run stem jpg_path wc _ Hc Hjs) as E1.
  cbv zeta in E1. change (advance wc 0 [Stat jpg_path]) with w1 in E1.
  fold photo in E1.
  assert (Hsc : sent wc = sent w).
  { unfold wc, converted, sent. cbn [trace]. unfold wa. cbn [trace advance].
    rewrite !filter_app. cbn [filter is_urlopen]. now rewrite !app_nil_r. }
  rewrite Hsc in E1. change (remote wc) with (remote w) in E1.
  rewrite E1.
  assert (Hne : Path_eqb book_path jpg_path = false).
  { destruct (Path_eqb book_path jpg_path) eqn:E; [|reflexivity].
    apply Path_eqb_eq in E. unfold jpg_path in E. congruence. }
  assert (Hb2 : fs w2 book_path = Some book).
  { unfold w2, removed. cbn [fs]. rewrite Hne.
    unfold w1, wc, converted. cbn [fs advance]. rewrite Hne. exact Hb. }
  assert (Hs : length (sent w2) = S (length (sent w))).
  { unfold w2, removed, sent, w1, converted. cbn [trace advance].
    rewrite !filter_app, !length_app. cbn [filter is_urlopen length]. lia. }
  destruct (reply_result (remote w (length (sent w)) photo)) as [p|e];
    cbn [fst snd]; fold w2; [|reflexivity].
  pose proof (document_call_run book_path w2 book Hb2) as E2.
  cbv zeta in E2. fold document in E2. fold w3 in E2.
  rewrite Hs in E2. change (remote w2) with (remote w) in E2.
  exact E2.
Qed.

(** The run of any pair that reaches its first call, by the world [w1] in
    which the photo is sent and the world [w2] the photo call leaves. *)
Lemma upload_pair_run (stem : str) (image_path book_path : Path) (w : World) :
  passes_checks cfg lib w stem image_path book_path ->
  exists w1 w2,
    let ready := ready_path lib w stem image_path in
    let photo :=
      request_of cfg lib w1 (lit "sendPhoto") (photo_fields cfg stem)
        [(lit "photo", ready)] in
    let document :=
      request_of cfg lib w2 (lit "sendDocument") (document_fields cfg)
        [(lit "document", book_path)] in
    let w3 := advance w2 1 [ReadFile book_path; UrlOpen document] in
    upload_pair cfg lib stem image_path book_path w
    = match reply_result (remote w (length (sent w)) photo) with
      | Raise e => (Raise e, w2)
      | Ok _ =>
          match reply_result (remote w (S (length (sent w))) document) with
          | Raise e => (Raise e, w3)
          | Ok _ => (Ok tt, w3)
          end
      end
    /\ fs w1 ready = ready_file lib w image_path
    /\ entropy w1 = entropy w
    /\ drawn w1 = draws_before_photo image_path + drawn w
    /\ entropy w2 = entropy w
    /\ drawn w2 = S (draws_before_photo image_path + drawn w)
    /\ sent w2 = sent w ++ [UrlOpen photo]
    /\ (forall p, fs w2 p = fs w p).
Proof.
  intros (Hfresh & book & cover & Hb & Hbs & Hc & Hcs).
  unfold ready_path, ready_file, draws_before_photo in *.
  destruct (needs_conversion image_path) eqn:Hconv.
  - destruct (convert_image lib w image_path) as [jpeg|e] eqn:Hjpeg;
      [|discriminate].
    injection Hc as <-. cbn [st_size] in Hcs.
    specialize (Hfresh eq_refl).
    pose proof (upload_pair_run_converted stem image_path book_path w book
                  jpeg Hconv Hb Hbs Hjpeg Hcs Hfresh) as Hrun.
    cbv zeta in Hrun. eexists _, _. cbv zeta.
    split; [exact Hrun|].
    split.
    { unfold converted. cbn [fs advance]. now rewrite Path_eqb_refl. }
    split; [reflexivity|]. split; [reflexivity|].
    split; [reflexivity|]. split; [reflexivity|].
    split.
    { unfold removed, converted, sent. cbn [trace advance].
      rewrite !filter_app. simpl. now rewrite !app_nil_r. }
    intros p. unfold removed, converted. cbn [fs advance].
    destruct (Path_eqb p (jpg_path_of lib w stem)) eqn:E; [|reflexivity].
    apply Path_eqb_eq in E. subst p. now rewrite Hfresh.
  - pose proof (upload_pair_run_plain stem image_path book_path w book cover
                  Hconv Hb Hbs Hc Hcs) as Hrun.
    cbv zeta in Hrun. eexists _, _. cbv zeta.
    split; [exact Hrun|].
    split; [reflexivity|].
    split; [reflexivity|]. split; [reflexivity|].
    split; [reflexivity|]. split; [reflexivity|].
    split.
    { rewrite !sent_advance. simpl. now rewrite !app_nil_r. }
    intros p. reflexivity.
Qed.

End Pair.

(** ** One step of the loop *)

Lemma sleep_run (seconds : Z) (w : World) :
  (0 <= seconds <= 9223372036)%Z ->
  sleep seconds w = (Ok tt, advance w 0 [Sleep seconds]).
Proof.
  intros [H0 H1]. unfold sleep.
  rewrite (Z.abs_eq _ H0), (size_within _ _ H1).
  assert (E : (seconds <? 0)%Z = false) by (apply Z.ltb_ge; exact H0).
  rewrite E. apply log_run.
Qed.

Lemma sleep_refused (seconds : Z) (w : World) :
  ~ (0 <= seconds <= 9223372036)%Z ->
  sleep seconds w = (Raise (sleep_error seconds), w).
Proof.
  intros H. unfold sleep, sleep_error.
  destruct (Z.abs seconds >? 9223372036)%Z eqn:E1; [reflexivity|].
  destruct (seconds <? 0)%Z eqn:E2; [reflexivity|].
  exfalso. apply H. apply Z.ltb_ge in E2. split; [exact E2|].
  rewrite Z.gtb_ltb in E1. apply Z.ltb_ge in E1.
  now rewrite Z.abs_eq in E1.
Qed.

Section Loop.

Variable cfg : Config.
Variable lib : Libraries.

(** The [try] statement of the step: the outcome of the upload is counted
    and, unless the pair was uploaded, printed. *)
Lemma upload_try_run (t : Tally) (stem : str) (image_path book_path : Path)
  (w w1 : World) (r : result unit) :
  upload_pair cfg lib stem image_path book_path w = (r, w1) ->
  try_except
    (upload_pair cfg lib stem image_path book_path ;;
     ret (count_uploaded t))
    (fun exc =>
       match exc with
       | TelegramRequestTooLargeError _ =>
           let reason := exn_str exc in
           print (lit "  skipped (too large): " ++ reason) ;;
           ret (count_too_large t stem reason)
       | _ =>
           print (lit "  failed: " ++ exn_str exc) ;;
           ret (count_failed t)
       end) w
  = (Ok (counted t stem r), advance w1 0 (outcome_lines r)).
Proof.
  intros Hrun. unfold try_except, bind at 1. rewrite Hrun.
  destruct r as [[]|e].
  - cbn [outcome_lines counted]. now rewrite advance_0_nil.
  - destruct e as [reason|reason|reason]; cbn [exn_str counted outcome_lines];
      unfold print; erewrite bind_ok by apply log_run; reflexivity.
Qed.

Lemma upload_step_run (total index : nat) (t : Tally) (stem : str)
  (image_path book_path : Path) (w w1 : World) (r : result unit) :
  delay_accepted cfg ->
  upload_pair cfg lib stem image_path book_path
    (advance w 0 [Print (progress_line total index stem)]) = (r, w1) ->
  upload_step cfg lib total index t (stem, image_path, book_path) w
  = (Ok (counted t stem r), advance w1 0 (outcome_events cfg r)).
Proof.
  intros Hdelay Hrun. unfold upload_step.
  unfold print at 1. erewrite bind_ok by apply log_run.
  erewrite bind_ok by (apply upload_try_run; exact Hrun).
  erewrite bind_ok by (apply sleep_run; exact Hdelay).
  unfold ret, outcome_events. now rewrite advance_advance.
Qed.

(** With a delay that [sleep] refuses the step raises the error of [sleep]
    once the pair is dealt with. *)
Lemma upload_step_refused (total index : nat) (t : Tally) (stem : str)
  (image_path book_path : Path) (w w1 : World) (r : result unit) :
  ~ delay_accepted cfg ->
  upload_pair cfg lib stem image_path book_path
    (advance w 0 [Print (progress_line total index stem)]) = (r, w1) ->
  upload_step cfg lib total index t (stem, image_path, book_path) w
  = (Raise (sleep_error (POST_DELAY_SECONDS cfg)),
     advance w1 0 (outcome_lines r)).
Proof.
  intros Hdelay Hrun. unfold upload_step.
  unfold print at 1. erewrite bind_ok by apply log_run.
  erewrite bind_ok by (apply upload_try_run; exact Hrun).
  erewrite bind_raise by (apply sleep_refused; exact Hdelay). reflexivity.
Qed.

(** With an accepted delay a step always returns, whatever the upload
    does. *)
Lemma upload_step_total (total index : nat) (t : Tally) (item : Pair)
  (w : World) :
  delay_accepted cfg ->
  exists r w',
    upload_step cfg lib total index t item w
    = (Ok (counted t (pair_stem item) r), w').
Proof.
  intros Hdelay. destruct item as [[stem image_path] book_path].
  destruct (upload_pair cfg lib stem image_path book_path
              (advance w 0 [Print (progress_line total index stem)]))
    as [r w1] eqn:E.
  exists r, (advance w1 0 (outcome_events cfg r)).
  now apply upload_step_run.
Qed.

End Loop.

(** ** Size limits and failures *)

(** C2: a document larger than the limit ends the upload with the
    too-large error, which names the file and its size in MB; the only
    event of the run is the stat of the document, so no request is sent
    and the image is neither read nor converted. *)
Theorem upload_pair_book_too_large (cfg : Config) (lib : Libraries)
  (stem : str) (image_path book_path : Path) (w : World) (book : File) :
  fs w book_path = Some book ->
  (MAX_FILE_SIZE_BYTES cfg < st_size book)%Z ->
  let w' := snd (upload_pair cfg lib stem image_path book_path w) in
  fst (upload_pair cfg lib stem image_path book_path w)
  = Raise (TelegramRequestTooLargeError
             (lit "Book is too large: " ++ name book_path ++ lit " ("
              ++ format_size (st_size book) ++ lit ")"))
  /\ trace w' = trace w ++ [Stat book_path]
  /\ sent w' = sent w
  /\ fs w' = fs w
  /\ drawn w' = drawn w.
Proof.
  intros Hb Hsize w'. subst w'. unfold upload_pair.
  erewrite bind_ok by (apply stat_size_run; exact Hb).
  assert (E : (st_size book >? MAX_FILE_SIZE_BYTES cfg)%Z = true)
    by (apply Z.gtb_lt; exact Hsize).
  rewrite E. unfold raise. cbn [fst snd].
  repeat split.
  rewrite sent_advance. simpl. apply app_nil_r.
Qed.

Lemma upload_pair_book_too_large_witness :
  let w := sample_world (60 * 1024 * 1024) (fun _ => accepted) in
  fst (upload_pair sample_cfg sample_lib (lit "Alpha") sample_cover
         sample_book w)
  = Raise (TelegramRequestTooLargeError
             (lit "Book is too large: Alpha.epub (60.00 MB)"))
  /\ trace (snd (upload_pair sample_cfg sample_lib (lit "Alpha") sample_cover
                   sample_book w))
     = [Stat sample_book].
Proof.
  intros w.
  destruct (upload_pair_book_too_large sample_cfg sample_lib (lit "Alpha")
              sample_cover sample_book w
              {| st_size := 60 * 1024 * 1024;
                 content := [Byte.x50; Byte.x4b] |})
    as (H1 & H2 & _); [reflexivity | reflexivity | ].
  split; [exact H1 | exact H2].
Defined.

(** C3: a call answered by an HTTP error raises the too-large error when
    the status is 413 and a plain [RuntimeError] otherwise, with the status
    and the body in the message.  A pair that reaches its first call, with
    its image sent as it is or converted, and whose photo call, or whose
    document call after an accepted photo, is answered so, is counted by
    the step of the loop as skipped for its size in the first case: one
    more in [too_large], one more report line of the stem, a bar and the
    message, the other counters as they were; and as failed in the second
    case: one more in [failed] and nothing else changed.  The step prints
    the matching line. *)
Theorem http_error_classified (cfg : Config) (lib : Libraries)
  (code : Z) (details : str) :
  let error :=
    if (code =? 413)%Z
    then TelegramRequestTooLargeError (http_error_text code details)
    else RuntimeError (http_error_text code details) in
  (forall method fields files w,
      readable w files ->
      (forall req, remote w (length (sent w)) req = HTTPError code details) ->
      fst (telegram_call cfg lib method fields files w) = Raise error)
  /\ (forall total index t stem image_path book_path w,
        delay_accepted cfg ->
        passes_checks cfg lib w stem image_path book_path ->
        (forall req, remote w (length (sent w)) req = HTTPError code details)
        \/ (forall req, exists payload,
               remote w (length (sent w)) req = Body payload
               /\ ok payload = true)
           /\ (forall req,
                 remote w (S (length (sent w))) req = HTTPError code details) ->
        let step :=
          upload_step cfg lib total index t (stem, image_path, book_path) w in
        fst step
        = Ok (if (code =? 413)%Z
              then {| uploaded := uploaded t;
                      too_large := too_large t + 1;
                      failed := failed t;
                      too_large_details :=
                        too_large_details t
                        ++ [stem ++ lit " | " ++ http_error_text code details]
                   |}
              else {| uploaded := uploaded t;
                      too_large := too_large t;
                      failed := failed t + 1;
                      too_large_details := too_large_details t |})
        /\ In (Print (if (code =? 413)%Z
                      then lit "  skipped (too large): "
                           ++ http_error_text code details
                      else lit "  failed: " ++ http_error_text code details))
             (trace (snd step))).
Proof.
  intros error. split.
  - intros method fields files w Hr Hreply.
    rewrite (telegram_call_run cfg lib method fields files w Hr), Hreply.
    unfold error. simpl. now destruct (code =? 413)%Z.
  - intros total index t stem image_path book_path w Hdelay Hchecks Hreply step.
    set (w0 := advance w 0 [Print (progress_line total index stem)]).
    assert (Hs : length (sent w0) = length (sent w)).
    { unfold w0. rewrite sent_advance. simpl. now rewrite app_nil_r. }
    assert (Hrun : fst (upload_pair cfg lib stem image_path book_path w0)
                   = Raise error).
    { destruct (upload_pair_run cfg lib stem image_path book_path w0 Hchecks)
        as (w1 & w2 & Hrun & _).
      cbv zeta in Hrun. rewrite Hrun.
      rewrite Hs. change (remote w0) with (remote w).
      destruct Hreply as [H1 | [H1 H2]].
      - rewrite H1. unfold error. simpl. now destruct (code =? 413)%Z.
      - match goal with
        | |- context [remote w (length (sent w)) ?r] =>
            destruct (H1 r) as (payload & Hp & Hok); rewrite Hp
        end.
        cbn [reply_result]. rewrite Hok, H2. unfold error. simpl.
        now destruct (code =? 413)%Z. }
    destruct (upload_pair cfg lib stem image_path book_path w0)
      as [r w1] eqn:E.
    subst step.
    rewrite (upload_step_run cfg lib total index t stem image_path book_path
               w w1 r Hdelay E).
    simpl in Hrun. subst r. unfold error. cbn [fst snd trace advance].
    destruct (code =? 413)%Z; (split; [reflexivity|]);
      apply in_or_app; right; now left.
Qed.

Lemma http_error_classified_witness :
  fst (telegram_call sample_cfg sample_lib (lit "sendDocument")
         (document_fields sample_cfg) [(lit "document", sample_book)]
         (sample_world 2 (fun _ => HTTPError 413 (lit "Request Entity Too Large"))))
  = Raise (TelegramRequestTooLargeError
             (lit "HTTP 413: Request Entity Too Large"))
  /\ fst (upload_step sample_cfg sample_lib 1 1 tally0
            (lit "Alpha", sample_scan, sample_book)
            (sample_world 2 (fun n => match n with
                                      | 0 => accepted
                                      | _ => HTTPError 502 (lit "Bad Gateway")
                                      end)))
     = Ok {| uploaded := 0; too_large := 0; failed := 1;
             too_large_details := [] |}.
Proof.
  split.
  - apply (http_error_classified sample_cfg sample_lib 413
             (lit "Request Entity Too Large")).
    + apply sample_world_readable. now right.
    + reflexivity.
  - apply (proj2 (http_error_classified sample_cfg sample_lib 502
                    (lit "Bad Gateway")) 1 1 tally0).
    + unfold delay_accepted. simpl. lia.
    + split; [reflexivity|].
      eexists _, _. repeat split; try reflexivity; discriminate.
    + right. split; [|reflexivity].
      intros req. eexists. split; reflexivity.
Defined.

(** C9: when the photo is accepted and the document call then fails with
    an error that is not the too-large one, the pair is counted as failed
    and as nothing else: [failed] is one more, [uploaded], [too_large] and
    the report lines are as they were; this holds with the image sent as it
    is or converted.  The two requests are the only ones sent for the pair
    (nothing is taken back or deleted), every file is as it was, and the
    loop goes on with the next pair. *)
Theorem document_failure_counts_failed (cfg : Config) (lib : Libraries)
  (total index : nat) (t : Tally) (stem : str) (image_path book_path : Path)
  (rest : list Pair) (w : World) (photo_reply : Payload) (e : exn) :
  delay_accepted cfg ->
  passes_checks cfg lib w stem image_path book_path ->
  (forall req,
      reply_result (remote w (length (sent w)) req) = Ok photo_reply) ->
  (forall req,
      reply_result (remote w (S (length (sent w))) req) = Raise e) ->
  is_too_large e = false ->
  exists photo document t' w',
    upload_step cfg lib total index t (stem, image_path, book_path) w
    = (Ok t', w')
    /\ failed t' = failed t + 1
    /\ uploaded t' = uploaded t
    /\ too_large t' = too_large t
    /\ too_large_details t' = too_large_details t
    /\ sent w' = sent w ++ [UrlOpen photo; UrlOpen document]
    /\ req_url photo
       = lit "https://api.telegram.org/bot" ++ BOT_TOKEN cfg
         ++ lit "/sendPhoto"
    /\ req_url document
       = lit "https://api.telegram.org/bot" ++ BOT_TOKEN cfg
         ++ lit "/sendDocument"
    /\ (forall p, fs w' p = fs w p)
    /\ upload_loop cfg lib total index
         ((stem, image_path, book_path) :: rest) t w
       = upload_loop cfg lib total (S index) rest t' w'.
Proof.
  intros Hdelay Hchecks Hphoto Hdoc He.
  set (w0 := advance w 0 [Print (progress_line total index stem)]).
  assert (Hs : sent w0 = sent w).
  { unfold w0. rewrite sent_advance. simpl. now rewrite app_nil_r. }
  destruct (upload_pair_run cfg lib stem image_path book_path w0 Hchecks)
    as (w1 & w2 & Hrun & _ & _ & _ & _ & _ & Hsent & Hfs).
  cbv zeta in Hrun, Hsent. rewrite Hs in Hrun, Hsent.
  change (remote w0) with (remote w) in Hrun.
  rewrite Hphoto, Hdoc in Hrun.
  pose proof (upload_step_run cfg lib total index t stem image_path book_path
                w _ _ Hdelay Hrun) as Hstep.
  assert (Hc : counted t stem (Raise e) = count_failed t)
    by (destruct e; [discriminate He | reflexivity | reflexivity]).
  rewrite Hc in Hstep.
  eexists _, _, _, _. split; [exact Hstep|].
  split; [reflexivity|]. split; [reflexivity|]. split; [reflexivity|].
  split; [reflexivity|]. split.
  { rewrite !sent_advance, Hsent.
    assert (Ho : filter is_urlopen (outcome_events cfg (Raise e)) = [])
      by (destruct e; reflexivity).
    rewrite Ho. cbn [filter is_urlopen].
    rewrite !app_nil_r, <- app_assoc. reflexivity. }
  split; [reflexivity|]. split; [reflexivity|]. split.
  { intros p. cbn [fs advance]. apply Hfs. }
  cbn [upload_loop]. erewrite bind_ok by exact Hstep. reflexivity.
Qed.

Lemma document_failure_counts_failed_witness :
  exists w',
    upload_step sample_cfg sample_lib 1 1 tally0
      (lit "Alpha", sample_scan, sample_book)
      (sample_world 2 (fun n => match n with
                                | 0 => accepted
                                | _ => URLError (lit "timed out")
                                end))
    = (Ok {| uploaded := 0; too_large := 0; failed := 1;
             too_large_details := [] |}, w')
    /\ length (sent w') = 2.
Proof.
  destruct (document_failure_counts_failed sample_cfg sample_lib 1 1 tally0
              (lit "Alpha") sample_scan sample_book []
              (sample_world 2 (fun n => match n with
                                        | 0 => accepted
                                        | _ => URLError (lit "timed out")
                                        end))
              {| ok := true; repr := lit "{'ok': True}" |}
              (RuntimeError (lit "Network error: timed out")))
    as (photo & document & t' & w' & Hstep & Hf & Hu & Hl & Hd & Hsent & _).
  - unfold delay_accepted. simpl. lia.
  - split; [reflexivity|].
    eexists _, _. repeat split; try reflexivity; discriminate.
  - reflexivity.
  - reflexivity.
  - reflexivity.
  - exists w'. split; [|rewrite Hsent; reflexivity].
    rewrite Hstep. f_equal. f_equal. destruct t'. simpl in *. congruence.
Defined.

(** ** The run *)

Lemma delay_accepted_dec (cfg : Config) :
  {delay_accepted cfg} + {~ delay_accepted cfg}.
Proof.
  unfold delay_accepted.
  destruct (Z_le_dec 0 (POST_DELAY_SECONDS cfg));
    destruct (Z_le_dec (POST_DELAY_SECONDS cfg) 9223372036);
    first [left; lia | right; lia].
Qed.

Section Run.

Variable cfg : Config.
Variable lib : Libraries.

(** With an accepted delay the loop returns for every list of pairs, and
    every pair adds one to exactly one counter, a report line coming with
    each too-large one. *)
Lemma upload_loop_counts (total : nat) (pairs : list Pair) (index : nat)
  (t : Tally) (w : World) :
  delay_accepted cfg ->
  exists t' w',
    upload_loop cfg lib total index pairs t w = (Ok t', w')
    /\ total_counted t' = total_counted t + length pairs
    /\ length (too_large_details t') + too_large t
       = length (too_large_details t) + too_large t'
    /\ too_large t <= too_large t'.
Proof.
  intros Hdelay.
  revert index t w. induction pairs as [|item pairs IH]; intros index t w.
  - exists t, w. simpl. repeat split; lia.
  - destruct (upload_step_total cfg lib total index t item w Hdelay)
      as (r & w1 & Hstep).
    destruct (IH (S index) (counted t (pair_stem item) r) w1)
      as (t' & w' & Hloop & Hsum & Hlen & Hle).
    exists t', w'. split.
    + cbn [upload_loop]. erewrite bind_ok by exact Hstep. exact Hloop.
    + unfold total_counted in *.
      destruct r as [[]|[reason|reason|reason]];
        cbn [counted count_uploaded count_too_large count_failed
             uploaded too_large failed too_large_details length] in *;
        try rewrite length_app in Hlen; simpl in *; repeat split; lia.
Qed.

(** With a delay that [sleep] refuses the loop ends at its first pair:
    the pair is dealt with, and the error of [sleep] leaves the loop. *)
Lemma upload_loop_refused (total index : nat) (t : Tally) (stem : str)
  (image_path book_path : Path) (rest : list Pair) (w : World) :
  ~ delay_accepted cfg ->
  let run :=
    upload_pair cfg lib stem image_path book_path
      (advance w 0 [Print (progress_line total index stem)]) in
  upload_loop cfg lib total index ((stem, image_path, book_path) :: rest) t w
  = (Raise (sleep_error (POST_DELAY_SECONDS cfg)),
     advance (snd run) 0 (outcome_lines (fst run))).
Proof.
  intros Hdelay run.
  assert (He := upload_step_refused cfg lib total index t stem image_path
                  book_path w (snd run) (fst run) Hdelay).
  cbn [upload_loop]. erewrite bind_raise; [reflexivity|].
  apply He. unfold run. now destruct (upload_pair _ _ _ _ _ _).
Qed.

End Run.

(** C10: whenever the loop over any pairs completes from the empty tally,
    the three counters add up to the number of pairs and there are as many
    report lines as pairs counted too large; and the loop does complete,
    whatever the uploads do, when [sleep] accepts the delay.  A document of
    exactly the maximal size is not stopped by the size check: with a
    fitting image and accepted calls the pair is uploaded. *)
Theorem run_counts (cfg : Config) (lib : Libraries) :
  (forall pairs w,
      (delay_accepted cfg ->
       exists t w',
         upload_loop cfg lib (length pairs) 1 pairs tally0 w = (Ok t, w'))
      /\ (forall t w',
            upload_loop cfg lib (length pairs) 1 pairs tally0 w = (Ok t, w') ->
            uploaded t + too_large t + failed t = length pairs
            /\ length (too_large_details t) = too_large t))
  /\ (forall stem image_path book_path w book cover,
        fs w book_path = Some book ->
        st_size book = MAX_FILE_SIZE_BYTES cfg ->
        needs_conversion image_path = false ->
        fs w image_path = Some cover ->
        (st_size cover <= MAX_FILE_SIZE_BYTES cfg)%Z ->
        (forall n req, exists payload,
            remote w n req = Body payload /\ ok payload = true) ->
        fst (upload_pair cfg lib stem image_path book_path w) = Ok tt).
Proof.
  split.
  - intros pairs w. split.
    + intros Hdelay.
      destruct (upload_loop_counts cfg lib (length pairs) pairs 1 tally0 w
                  Hdelay) as (t & w' & Hloop & _).
      now exists t, w'.
    + intros t w' Hloop.
      destruct (delay_accepted_dec cfg) as [Hdelay|Hdelay].
      * destruct (upload_loop_counts cfg lib (length pairs) pairs 1 tally0 w
                    Hdelay) as (t1 & w1 & Hloop1 & Hsum & Hlen & _).
        rewrite Hloop in Hloop1. injection Hloop1 as <- <-.
        unfold total_counted in Hsum. simpl in *. split; lia.
      * destruct pairs as [|[[stem image_path] book_path] rest].
        { injection Hloop as <- _. split; reflexivity. }
        pose proof (upload_loop_refused cfg lib (length ((stem, image_path,
                      book_path) :: rest)) 1 tally0 stem image_path book_path
                      rest w Hdelay) as He.
        pose proof (eq_trans (eq_sym He) Hloop) as Hbad.
        discriminate Hbad.
  - intros stem image_path book_path w book cover Hb Hsize Hconv Hc Hcs Hreply.
    assert (Hbs : (st_size book <= MAX_FILE_SIZE_BYTES cfg)%Z)
      by (rewrite Hsize; apply Z.le_refl).
    rewrite (upload_pair_run_plain cfg lib stem image_path book_path w book
               cover Hconv Hb Hbs Hc Hcs).
    match goal with
    | |- context [remote w (length (sent w)) ?r] =>
        destruct (Hreply (length (sent w)) r) as (p1 & Hp1 & Hok1);
        rewrite Hp1
    end.
    cbn [reply_result]. rewrite Hok1.
    match goal with
    | |- context [remote w (S (length (sent w))) ?r] =>
        destruct (Hreply (S (length (sent w))) r) as (p2 & Hp2 & Hok2);
        rewrite Hp2
    end.
    cbn [reply_result]. now rewrite Hok2.
Qed.

Lemma run_counts_witness :
  (exists t w',
      upload_loop sample_cfg sample_lib 1 1
        [(lit "Alpha", sample_cover, sample_book)] tally0
        (sample_world 2 (fun _ => accepted)) = (Ok t, w')
      /\ uploaded t + too_large t + failed t = 1
      /\ length (too_large_details t) = too_large t)
  /\ fst (upload_pair sample_cfg sample_lib (lit "Alpha") sample_cover
            sample_book
            (sample_world (50 * 1024 * 1024) (fun _ => accepted)))
     = Ok tt.
Proof.
  destruct (run_counts sample_cfg sample_lib) as [H1 H2]. split.
  - destruct (H1 [(lit "Alpha", sample_cover, sample_book)]
                (sample_world 2 (fun _ => accepted))) as [Hruns Hsums].
    destruct Hruns as (t & w' & Hloop);
      [unfold delay_accepted; simpl; lia|].
    exists t, w'. split; [exact Hloop|]. exact (Hsums t w' Hloop).
  - apply (H2 _ _ _ _ {| st_size := 50 * 1024 * 1024;
                         content := [Byte.x50; Byte.x4b] |}
              {| st_size := 2; content := [Byte.xff; Byte.xd8] |});
      try reflexivity; try discriminate.
    intros n req. eexists. split; reflexivity.
Defined.

(** ** The report *)

Lemma join_report (details : list str) :
  details <> [] -> join [LF] details ++ [LF] = report_text details.
Proof.
  induction details as [|d [|d' ds] IH]; intros Hne.
  - contradiction.
  - unfold report_text. simpl. now rewrite app_nil_r.
  - change (join [LF] (d :: d' :: ds)) with (d ++ [LF] ++ join [LF] (d' :: ds)).
    change (report_text (d :: d' :: ds))
      with ((d ++ [LF]) ++ report_text (d' :: ds)).
    rewrite <- IH by discriminate.
    now rewrite <- !app_assoc.
Qed.

Lemma newlines_app (a b : bytes) : newlines (a ++ b) = newlines a + newlines b.
Proof. unfold newlines. apply count_occ_app. Qed.

Lemma newlines_encode_char (c : ascii) :
  newlines (encode [c]) = if Ascii.eqb LF c then 1 else 0.
Proof.
  destruct c as [b0 b1 b2 b3 b4 b5 b6 b7].
  destruct b0, b1, b2, b3, b4, b5, b6, b7; reflexivity.
Qed.

Lemma newlines_encode_plain (s : str) :
  has_newline s = false -> newlines (encode s) = 0.
Proof.
  unfold has_newline.
  induction s as [|c s IH]; intros H; [reflexivity|].
  cbn [existsb] in H. apply orb_false_iff in H. destruct H as [Hc Hs].
  change (c :: s) with ([c] ++ s).
  rewrite encode_app, newlines_app, newlines_encode_char, Hc.
  now rewrite IH.
Qed.

Lemma newlines_report (details : list str) :
  forallb (fun d => negb (has_newline d)) details = true ->
  newlines (encode (report_text details)) = length details.
Proof.
  induction details as [|d ds IH]; intros H; [reflexivity|].
  cbn [forallb] in H. apply andb_true_iff in H. destruct H as [Hd Hds].
  apply negb_true_iff in Hd.
  change (report_text (d :: ds)) with ((d ++ [LF]) ++ report_text ds).
  rewrite !encode_app, !newlines_app, (newlines_encode_plain d Hd).
  rewrite (IH Hds). reflexivity.
Qed.

Section Report.

Variable cfg : Config.
Variable lib : Libraries.

Lemma write_report_empty (t : Tally) (w : World) :
  too_large_details t = [] -> write_report lib t w = (Ok tt, w).
Proof. intros H. unfold write_report. now rewrite H. Qed.

Lemma write_report_run (t : Tally) (w : World) :
  too_large_details t <> [] ->
  let raw := encode (report_text (too_large_details t)) in
  write_report lib t w
  = (Ok tt,
     written w (SKIPPED_TOO_LARGE_REPORT lib) raw (report_events lib raw)).
Proof.
  intros Hne raw. unfold write_report.
  destruct (too_large_details t) as [|d ds] eqn:E; [contradiction|].
  rewrite (join_report (d :: ds)) by discriminate.
  unfold write_text, print, bind, log, set_file, written, with_fs, with_trace.
  simpl. fold raw. now rewrite <- app_assoc.
Qed.

Lemma upload_loop_details (total : nat) (pairs : list Pair) (index : nat)
  (t : Tally) (w : World) :
  delay_accepted cfg ->
  exists t' w' extra,
    upload_loop cfg lib total index pairs t w = (Ok t', w')
    /\ too_large_details t' = too_large_details t ++ extra
    /\ Forall (entry_of pairs) extra.
Proof.
  intros Hdelay.
  revert index t w. induction pairs as [|item pairs IH]; intros index t w.
  - exists t, w, []. simpl. rewrite app_nil_r. repeat split. constructor.
  - destruct (upload_step_total cfg lib total index t item w Hdelay)
      as (r & w1 & Hstep).
    destruct (IH (S index) (counted t (pair_stem item) r) w1)
      as (t' & w' & extra & Hloop & Hd & Hall).
    assert (Hweak : Forall (entry_of (item :: pairs)) extra).
    { eapply Forall_impl; [|exact Hall].
      intros line (it & reason & Hin & ->).
      exists it, reason. split; [now right | reflexivity]. }
    destruct r as [[]|[reason|reason|reason]]; cbn [counted] in *;
      try (exists t', w', extra; split;
           [cbn [upload_loop]; erewrite bind_ok by exact Hstep; exact Hloop
           |split; [exact Hd | exact Hweak]]).
    exists t', w', ((pair_stem item ++ lit " | " ++ reason) :: extra).
    split; [cbn [upload_loop]; erewrite bind_ok by exact Hstep; exact Hloop|].
    split.
    + rewrite Hd. cbn [count_too_large too_large_details].
      now rewrite <- app_assoc.
    + constructor; [|exact Hweak].
      exists item, reason. split; [now left | reflexivity].
Qed.

End Report.

Lemma path_exists_run (folder : str) (w : World) :
  path_exists folder w
  = (Ok (match folders w folder with Absent => false | _ => true end), w).
Proof.
  unfold path_exists, bind, get_world. now destruct (folders w folder).
Qed.

Lemma iterdir_run (folder : str) (w : World) (entries : list DirEntry) :
  folders w folder = Directory entries ->
  iterdir folder w = (Ok entries, w).
Proof. intros H. unfold iterdir, bind, get_world. now rewrite H. Qed.

(** The run of [main] up to the loop, with at least one pair found. *)
Lemma main_start (cfg : Config) (lib : Libraries) (w : World)
  (entries : list DirEntry) (pairs : list Pair) (missing : list str) :
  unconfigured cfg = false ->
  folders w (FILES_DIR cfg) = Directory entries ->
  build_pairs entries = (pairs, missing) ->
  pairs <> [] ->
  main cfg lib w
  = (t <- upload_loop cfg lib (length pairs) 1 pairs tally0 ;;
     write_report lib t ;;
     print (lit "Done.") ;;
     print (lit "Uploaded: " ++ str_of_nat (uploaded t)) ;;
     print (lit "Skipped (too large): " ++ str_of_nat (too_large t)) ;;
     print (lit "Failed (other errors): " ++ str_of_nat (failed t)))
      (advance w 0 (header_events pairs missing)).
Proof.
  intros Hcfg Hdir Hbuild Hne. unfold main.
  fold (unconfigured cfg). rewrite Hcfg.
  cbv zeta. erewrite bind_ok by apply path_exists_run.
  rewrite Hdir. cbn [negb].
  erewrite bind_ok by (apply iterdir_run; exact Hdir).
  rewrite Hbuild.
  destruct pairs as [|item pairs]; [contradiction|].
  unfold print at 1. erewrite bind_ok by apply log_run.
  assert (Hhead :
    (match missing with
     | [] => ret tt
     | _ :: _ =>
         print (lit "Skipped (missing image or book): "
                ++ str_of_nat (length missing))
     end)
      (advance w 0
         [Print (lit "Found pairs: " ++ str_of_nat (length (item :: pairs)))])
    = (Ok tt, advance w 0 (header_events (item :: pairs) missing))).
  { unfold header_events. destruct missing as [|m ms].
    - reflexivity.
    - unfold print. rewrite log_run, advance_advance. reflexivity. }
  erewrite bind_ok by exact Hhead. reflexivity.
Qed.

Lemma main_run (cfg : Config) (lib : Libraries) (w : World)
  (entries : list DirEntry) (pairs : list Pair) (missing : list str)
  (t : Tally) (w1 : World) :
  unconfigured cfg = false ->
  folders w (FILES_DIR cfg) = Directory entries ->
  build_pairs entries = (pairs, missing) ->
  pairs <> [] ->
  upload_loop cfg lib (length pairs) 1 pairs tally0
    (advance w 0 (header_events pairs missing)) = (Ok t, w1) ->
  main cfg lib w
  = (Ok tt, advance (snd (write_report lib t w1)) 0 (footer_events t)).
Proof.
  intros Hcfg Hdir Hbuild Hne Hloop.
  rewrite (main_start cfg lib w entries pairs missing Hcfg Hdir Hbuild Hne).
  unfold print.
  erewrite bind_ok by exact Hloop.
  assert (Hrep : write_report lib t w1 = (Ok tt, snd (write_report lib t w1))).
  { unfold write_report. destruct (too_large_details t) as [|d ds];
      [reflexivity|].
    unfold write_text, print, bind, log, set_file. reflexivity. }
  erewrite bind_ok by exact Hrep.
  unfold bind. rewrite !log_run, !advance_advance. reflexivity.
Qed.

(** The run of [main] on a folder without a pair. *)
Lemma main_without_pairs (cfg : Config) (lib : Libraries) (w : World)
  (entries : list DirEntry) :
  unconfigured cfg = false ->
  folders w (FILES_DIR cfg) = Directory entries ->
  fst (build_pairs entries) = [] ->
  main cfg lib w
  = (Ok tt,
     advance w 0 [Print (lit "No valid pairs found in: " ++ FILES_DIR cfg)]).
Proof.
  intros Hcfg Hdir Hnone. unfold main. fold (unconfigured cfg).
  rewrite Hcfg. cbv zeta. erewrite bind_ok by apply path_exists_run.
  rewrite Hdir. cbn [negb].
  erewrite bind_ok by (apply iterdir_run; exact Hdir).
  destruct (build_pairs entries) as [pairs missing].
  cbn [fst] in Hnone. subst pairs. reflexivity.
Qed.

(** C8, as the code has it: in a run of [main] that reaches the loop and
    gets through it, the delay being one that [sleep] accepts, with M of
    the pairs counted too large, there are M report entries, each the stem
    of one of the pairs, a bar and the reason; with M = 0 the run ends
    without writing any file; with M > 0 the report file is replaced by
    the UTF-8 text of the entries, each followed by a line feed, and this
    text has exactly M lines when no entry has a line feed inside. *)
Theorem skip_report (cfg : Config) (lib : Libraries) (w : World)
  (entries : list DirEntry) (pairs : list Pair) (missing : list str) :
  unconfigured cfg = false ->
  folders w (FILES_DIR cfg) = Directory entries ->
  build_pairs entries = (pairs, missing) ->
  pairs <> [] ->
  delay_accepted cfg ->
  exists t w1,
    upload_loop cfg lib (length pairs) 1 pairs tally0
      (advance w 0 (header_events pairs missing)) = (Ok t, w1)
    /\ length (too_large_details t) = too_large t
    /\ Forall (entry_of pairs) (too_large_details t)
    /\ (too_large t = 0 ->
        main cfg lib w = (Ok tt, advance w1 0 (footer_events t)))
    /\ (0 < too_large t ->
        let raw := encode (report_text (too_large_details t)) in
        main cfg lib w
        = (Ok tt,
           advance
             (written w1 (SKIPPED_TOO_LARGE_REPORT lib) raw
                (report_events lib raw))
             0 (footer_events t))
        /\ (forallb (fun d => negb (has_newline d)) (too_large_details t)
            = true ->
            newlines raw = too_large t)).
Proof.
  intros Hcfg Hdir Hbuild Hne Hdelay.
  set (w0 := advance w 0 (header_events pairs missing)).
  destruct (upload_loop_counts cfg lib (length pairs) pairs 1 tally0 w0
              Hdelay) as (t & w1 & Hloop & _ & Hlen & _).
  destruct (upload_loop_details cfg lib (length pairs) pairs 1 tally0 w0
              Hdelay) as (t' & w1' & extra & Hloop' & Hd & Hall).
  rewrite Hloop in Hloop'. injection Hloop' as <- <-.
  simpl in Hlen, Hd. rewrite Nat.add_0_r in Hlen.
  pose proof (main_run cfg lib w entries pairs missing t w1
                Hcfg Hdir Hbuild Hne Hloop) as Hmain.
  exists t, w1. split; [exact Hloop|]. split; [exact Hlen|].
  split; [now rewrite Hd|]. split.
  - intros H0. rewrite Hmain, write_report_empty; [reflexivity|].
    rewrite H0 in Hlen. now apply length_zero_iff_nil.
  - intros Hpos raw.
    assert (Hnil : too_large_details t <> []).
    { intros E. rewrite E in Hlen. simpl in Hlen. lia. }
    split.
    + rewrite Hmain, (write_report_run lib t w1 Hnil). reflexivity.
    + intros Hplain. unfold raw. rewrite newlines_report by exact Hplain.
      exact Hlen.
Qed.

Lemma skip_report_witness :
  exists w',
    main sample_cfg sample_lib
      (sample_world (60 * 1024 * 1024) (fun _ => accepted)) = (Ok tt, w')
    /\ option_map (fun f => newlines (content f))
         (fs w' (SKIPPED_TOO_LARGE_REPORT sample_lib))
       = Some 1.
Proof.
  destruct (skip_report sample_cfg sample_lib
              (sample_world (60 * 1024 * 1024) (fun _ => accepted))
              [ listed (lit "books") "Alpha.jpg";
                listed (lit "books") "Alpha.epub" ]
              [(lit "Alpha", sample_cover, sample_book)] [])
    as (t & w1 & Hloop & _ & _ & _ & Hwrite);
    try reflexivity; try discriminate;
    [unfold delay_accepted; simpl; lia|].
  pose proof Hloop as Hrun. vm_compute in Hrun.
  injection Hrun as Ht _.
  destruct Hwrite as [Hmain Hlines]; [rewrite <- Ht; simpl; lia|].
  eexists. split; [exact Hmain|].
  unfold advance, written. cbn [fs].
  rewrite (proj2 (Path_eqb_eq _ _) eq_refl). cbn [option_map content].
  rewrite Hlines; rewrite <- Ht; reflexivity.
Defined.

(** C8 as stated fails: the server answers the one pair with the status
    413 and a body of two lines; one pair is counted too large and the
    report has two lines. *)
Lemma report_with_more_lines :
  let w' := snd (main sample_cfg sample_lib (sample_world 2 two_line_413)) in
  In (Print (lit "Skipped (too large): 1")) (trace w')
  /\ option_map (fun f => newlines (content f))
       (fs w' (SKIPPED_TOO_LARGE_REPORT sample_lib))
     = Some 2.
Proof.
  vm_compute. split; [|reflexivity].
  repeat (first [left; reflexivity | right]).
Qed.

(** ** Sanitized names *)

Lemma sub_runs_from_Forall (P : ascii -> Prop) (cls : ascii -> bool)
  (repl : str) (in_run : bool) (s : str) :
  Forall P repl ->
  (forall c, In c s -> cls c = false -> P c) ->
  Forall P (sub_runs_from cls repl in_run s).
Proof.
  intros Hrepl. revert in_run.
  induction s as [|c s IH]; intros in_run Hs; simpl; [constructor|].
  assert (Hrest : forall b, Forall P (sub_runs_from cls repl b s)).
  { intros b. apply IH. intros x Hx. apply Hs. now right. }
  destruct (cls c) eqn:E.
  - apply Forall_app. split; [|apply Hrest].
    destruct in_run; [constructor | exact Hrepl].
  - constructor; [apply Hs; [now left | exact E] | apply Hrest].
Qed.

Lemma Forall_lstrip (P : ascii -> Prop) (s : str) :
  Forall P s -> Forall P (lstrip s).
Proof.
  induction 1 as [|c s Hc Hs IH]; simpl; [constructor|].
  destruct (isspace c); [exact IH | now constructor].
Qed.

Lemma Forall_strip (P : ascii -> Prop) (s : str) :
  Forall P s -> Forall P (strip s).
Proof.
  intros H. unfold strip, rstrip.
  apply Forall_rev, Forall_lstrip, Forall_rev, Forall_lstrip, H.
Qed.

Lemma sub_runs_single_spaced (in_run : bool) (s : str) :
  single_spaced (sub_runs_from isspace (lit " ") in_run s) = true
  /\ (in_run = true ->
      match sub_runs_from isspace (lit " ") in_run s with
      | d :: _ => isspace d = false
      | [] => True
      end).
Proof.
  revert in_run. induction s as [|c s IH]; intros in_run;
    cbn [sub_runs_from].
  - split; [reflexivity | intros _; exact I].
  - destruct (isspace c) eqn:E.
    + destruct (IH true) as [H1 H2]. specialize (H2 eq_refl).
      destruct in_run.
      * cbn [app]. split; [exact H1 | intros _; exact H2].
      * change (lit " " ++ sub_runs_from isspace (lit " ") true s)
          with (" "%char :: sub_runs_from isspace (lit " ") true s).
        split; [|discriminate].
        cbn [single_spaced]. rewrite H1.
        change (isspace " ") with true. cbn [Ascii.eqb Bool.eqb andb].
        destruct (sub_runs_from isspace (lit " ") true s) as [|d out];
          [reflexivity | now rewrite H2].
    + destruct (IH false) as [H1 _]. split.
      * cbn [single_spaced]. now rewrite E, H1.
      * intros _. exact E.
Qed.

Lemma single_spaced_firstn (n : nat) (s : str) :
  single_spaced s = true -> single_spaced (firstn n s) = true.
Proof.
  revert n. induction s as [|c s IH]; intros [|n] H; try reflexivity.
  cbn [firstn]. cbn [single_spaced] in *.
  apply andb_true_iff in H. destruct H as [Hc Hs].
  rewrite (IH n Hs), andb_true_r.
  destruct (isspace c); [|reflexivity].
  apply andb_true_iff in Hc. destruct Hc as [Hb Hnext]. rewrite Hb.
  destruct n as [|n]; [reflexivity|].
  destruct s as [|d s]; [reflexivity | exact Hnext].
Qed.

Lemma Forall_prefix {A} (P : A -> Prop) (n : nat) (l : list A) :
  Forall P l -> Forall P (firstn n l).
Proof.
  intros H. revert n. induction H as [|x l Hx Hl IH]; intros [|n]; simpl;
    constructor; [exact Hx | apply IH].
Qed.

Lemma sub_runs_from_clean (cls : ascii -> bool) (repl : str)
  (in_run : bool) (s : str) :
  Forall (fun c => cls c = false) s -> sub_runs_from cls repl in_run s = s.
Proof.
  intros H. revert in_run. induction H as [|c s Hc Hs IH]; intros in_run;
    cbn [sub_runs_from]; [reflexivity|].
  now rewrite Hc, IH.
Qed.

Lemma lstrip_clean (s : str) :
  Forall (fun c => isspace c = false) s -> lstrip s = s.
Proof.
  intros [|c s' Hc _]; [reflexivity|]. cbn [lstrip]. now rewrite Hc.
Qed.

Lemma strip_clean (s : str) :
  Forall (fun c => isspace c = false) s -> strip s = s.
Proof.
  intros H. unfold strip, rstrip.
  rewrite (lstrip_clean s H), lstrip_clean by (now apply Forall_rev).
  apply rev_involutive.
Qed.

(** A stem of at most 180 characters without forbidden characters and
    without whitespace is its own sanitized form. *)
Lemma sanitize_filename_clean (stem : str) :
  Forall (fun c => forbidden c = false /\ isspace c = false) stem ->
  length stem <= 180 ->
  sanitize_filename stem = stem.
Proof.
  intros H Hlen. unfold sanitize_filename, sub_runs.
  assert (Hf : Forall (fun c => forbidden c = false) stem)
    by (eapply Forall_impl; [|exact H]; now intros c [? _]).
  assert (Hs : Forall (fun c => isspace c = false) stem)
    by (eapply Forall_impl; [|exact H]; now intros c [_ ?]).
  rewrite (sub_runs_from_clean forbidden _ _ stem Hf).
  rewrite (strip_clean stem Hs).
  rewrite (sub_runs_from_clean isspace _ _ stem Hs).
  now apply firstn_all2.
Qed.

Lemma sanitize_filename_safe (stem : str) :
  length (sanitize_filename stem) <= 180
  /\ Forall (fun c => forbidden c = false) (sanitize_filename stem)
  /\ single_spaced (sanitize_filename stem) = true.
Proof.
  unfold sanitize_filename. repeat split.
  - apply firstn_le_length.
  - apply Forall_prefix. unfold sub_runs.
    apply sub_runs_from_Forall; [repeat constructor|].
    intros c Hc _. revert c Hc. apply Forall_forall, Forall_strip.
    apply sub_runs_from_Forall; [repeat constructor|].
    intros c _ E. exact E.
  - apply single_spaced_firstn. apply sub_runs_single_spaced.
Qed.

(** ** The image preparer *)

(** C6: an image whose extension, in lower case, is neither [.tif] nor
    [.tiff] is handed to the caller as it is, and the run is the run of
    the caller alone; an image with such an extension that Pillow decodes
    is saved as JPEG of quality 90 in a fresh temporary directory under
    the sanitized stem ([cover] when that is empty) with [.jpg] appended,
    the caller gets that path, and the file and the directory are removed
    afterwards; a stem that is short and clean already is kept as it is,
    and every sanitized stem has at most 180 characters, none of the
    forbidden ones, and no whitespace but single blanks. *)
Theorem prepared_image_for_upload_spec (lib : Libraries) (A : Type)
  (image_path : Path) (stem : str) (body : Path -> M A) (w : World) :
  (needs_conversion image_path = false ->
   prepared_image_for_upload lib image_path stem body w = body image_path w)
  /\ (forall cover src rgb jpeg,
        needs_conversion image_path = true ->
        fs w image_path = Some cover ->
        Image_open lib (content cover) = inl src ->
        Image_convert lib src (lit "RGB") = inl rgb ->
        Image_save lib rgb (lit "JPEG") 90 true = inl jpeg ->
        let tmp_dir :=
          gettempdir lib ++ lit "/telegram_cover_" ++ entropy w (drawn w) in
        let jpg_path :=
          {| parent := tmp_dir; name := safe_name_of stem ++ lit ".jpg" |} in
        let w1 :=
          converted w jpg_path jpeg
            [ MkTemp tmp_dir; ImageOpen image_path;
              ImageSave jpg_path (lit "JPEG") 90 true ] in
        prepared_image_for_upload lib image_path stem body w
        = (fst (body jpg_path w1),
           removed (snd (body jpg_path w1)) jpg_path [RmTemp tmp_dir]))
  /\ (safe_name_of stem
      = if str_eqb (sanitize_filename stem) [] then lit "cover"
        else sanitize_filename stem)
  /\ (Forall (fun c => forbidden c = false /\ isspace c = false) stem ->
      length stem <= 180 ->
      sanitize_filename stem = stem)
  /\ length (sanitize_filename stem) <= 180
  /\ Forall (fun c => forbidden c = false) (sanitize_filename stem)
  /\ single_spaced (sanitize_filename stem) = true.
Proof.
  split; [|split; [|split; [|split]]].
  - intros Hconv. unfold prepared_image_for_upload.
    fold (needs_conversion image_path). now rewrite Hconv.
  - intros cover src rgb jpeg Hconv Hf Hopen Hrgb Hsave tmp_dir jpg_path w1.
    unfold prepared_image_for_upload.
    fold (needs_conversion image_path). rewrite Hconv. cbn [negb].
    fold (safe_name_of stem).
    erewrite bind_ok by apply draw_run. cbv zeta. fold tmp_dir. fold jpg_path.
    erewrite bind_ok by apply log_run.
    unfold finally.
    erewrite bind_ok by apply log_run.
    erewrite bind_ok by reflexivity.
    cbn [fs advance]. rewrite Hf.
    erewrite bind_ok by reflexivity.
    rewrite Hopen. erewrite bind_ok by reflexivity.
    rewrite Hrgb. erewrite bind_ok by reflexivity.
    rewrite Hsave. erewrite bind_ok by reflexivity.
    erewrite bind_ok by apply log_run.
    erewrite bind_ok by reflexivity.
    match goal with
    | |- (let (r, w') := body jpg_path ?x in _) = _ =>
        assert (Hw : x = w1)
    end.
    { unfold w1, converted, with_fs, advance. simpl.
      now rewrite app_nil_r, <- !app_assoc. }
    rewrite Hw. destruct (body jpg_path w1) as [r w2]. reflexivity.
  - unfold safe_name_of. now destruct (sanitize_filename stem).
  - apply sanitize_filename_clean.
  - apply sanitize_filename_safe.
Qed.

Lemma prepared_image_for_upload_spec_witness :
  let w := sample_world 2 (fun _ => accepted) in
  prepared_image_for_upload sample_lib sample_cover (lit "Alpha") stat_size w
  = stat_size sample_cover w
  /\ fst (prepared_image_for_upload sample_lib sample_scan (lit "Al: pha")
            (fun ready_image_path => ret (name ready_image_path)) w)
     = Ok (lit "Al_ pha.jpg").
Proof.
  intros w. split.
  - apply (prepared_image_for_upload_spec sample_lib Z sample_cover
             (lit "Alpha") stat_size w).
    reflexivity.
  - destruct (prepared_image_for_upload_spec sample_lib str sample_scan
                (lit "Al: pha")
                (fun ready_image_path => ret (name ready_image_path)) w)
      as (_ & H & _).
    rewrite (H {| st_size := 2; content := [Byte.x49; Byte.x49] |}
               [Byte.x49; Byte.x49] [Byte.x49; Byte.x49]
               [Byte.x49; Byte.x49]); reflexivity.
Defined.

(** ** The model on concrete values *)

Example format_size_values :
  map format_size [0; 5243; 15729; 52428800; 52953088; 9007199254740993]%Z
  = [ lit "0.00 MB"; lit "0.01 MB"; lit "0.02 MB"; lit "50.00 MB";
      lit "50.50 MB"; lit "8589934592.00 MB" ].
Proof. reflexivity. Qed.

Example sanitize_filename_values :
  map sanitize_filename
    [ lit "War & Peace: Vol. 1 / 2"; lit " a::b   c "; lit "???"; lit "  " ]
  = [ lit "War & Peace_ Vol. 1 _ 2"; lit "a_b c"; lit "_"; [] ].
Proof. reflexivity. Qed.

Example stem_and_suffix_values :
  map (fun n => (stem_of {| parent := []; name := n |},
                 suffix_of {| parent := []; name := n |}))
    [ lit "Beta.cover.png"; lit ".bashrc"; lit "a."; lit "a" ]
  = [ (lit "Beta.cover", lit ".png"); (lit ".bashrc", []); (lit "a.", []);
      (lit "a", []) ].
Proof. reflexivity. Qed.

Example normalize_stem_values :
  map normalize_stem [ lit "  Beta.COVER "; lit "Alpha"; lit "a .cover" ]
  = [ lit "Beta"; lit "Alpha"; lit "a" ].
Proof. reflexivity. Qed.

(** * Further properties *)

(** ** The pair builder, stem by stem *)

Lemma filter_nonempty {A} (f : A -> bool) (l : list A) :
  filter f l <> [] <-> exists x, In x l /\ f x = true.
Proof.
  split.
  - destruct (filter f l) as [|x r] eqn:E; [contradiction|].
    intros _. exists x. apply filter_In. rewrite E. now left.
  - intros (x & Hx & Hf) E.
    assert (H : In x (filter f l)) by (apply filter_In; now split).
    rewrite E in H. destruct H.
Qed.

Lemma getitem_group_by_stem (items : list Path) (s : str) :
  getitem (group_by_stem items) s
  = filter (fun p => str_eqb (stem_key p) s) items.
Proof. rewrite group_by_stem_from, getitem_group_from. reflexivity. Qed.

Lemma in_group (items : list Path) (s : str) (x : Path) :
  In x (sorted suffix_key (getitem (group_by_stem items) s))
  <-> In x items /\ stem_key x = s.
Proof.
  rewrite getitem_group_by_stem. split.
  - intros H. apply (Permutation_in _ (sorted_perm suffix_key _)) in H.
    apply filter_In in H. destruct H as [H E].
    apply str_eqb_eq in E. now split.
  - intros [H E].
    apply (Permutation_in _ (Permutation_sym (sorted_perm suffix_key _))).
    apply filter_In. split; [exact H | now apply str_eqb_eq].
Qed.

Lemma in_sorted_keys (items : list Path) (s : str) :
  In s (sorted lower (keys (group_by_stem items)))
  <-> exists p, In p items /\ stem_key p = s.
Proof.
  rewrite group_by_stem_from. split.
  - intros H. apply (Permutation_in _ (sorted_perm lower _)) in H.
    apply keys_group_from_In in H. destruct H as [[]|H].
    apply in_map_iff in H. destruct H as (p & E & Hp). now exists p.
  - intros (p & Hp & E).
    apply (Permutation_in _ (Permutation_sym (sorted_perm lower _))).
    apply keys_group_from_In. right. apply in_map_iff. now exists p.
Qed.

Lemma paired_iff (items : list Path) (s : str) :
  paired (group_by_stem items) s = true
  <-> has_kind items s true /\ has_kind items s false.
Proof.
  unfold paired, has_kind.
  set (group := sorted suffix_key (getitem (group_by_stem items) s)).
  assert (Hi : filter is_image group <> []
               <-> exists p, In p items /\ stem_key p = s /\ is_image p = true).
  { rewrite filter_nonempty. split.
    - intros (x & Hx & Hf). apply in_group in Hx. exists x. tauto.
    - intros (x & Hx & E & Hf). exists x. split; [|exact Hf].
      apply in_group. now split. }
  assert (Hb : filter (fun p => negb (is_image p)) group <> []
               <-> exists p, In p items /\ stem_key p = s /\ is_image p = false).
  { rewrite filter_nonempty. split.
    - intros (x & Hx & Hf). apply in_group in Hx.
      apply negb_true_iff in Hf. exists x. tauto.
    - intros (x & Hx & E & Hf). exists x.
      split; [apply in_group; now split | now apply negb_true_iff]. }
  rewrite <- Hi, <- Hb.
  destruct (filter is_image group) as [|i images];
    [split; [discriminate | now intros [H _]]|].
  destruct (filter (fun p => negb (is_image p)) group) as [|b books];
    [split; [discriminate | now intros [_ H]]|].
  split; [intros _; split; discriminate | reflexivity].
Qed.

Lemma build_pairs_stems_eq (entries : list DirEntry) :
  let d := group_by_stem (items_of entries) in
  map pair_stem (fst (build_pairs entries))
  = filter (paired d) (sorted lower (keys d))
  /\ snd (build_pairs entries)
     = filter (fun s => negb (paired d s)) (sorted lower (keys d)).
Proof.
  intros d. unfold build_pairs. fold d.
  destruct (fold_pair_step_stems d (sorted lower (keys d)) [] []) as [E1 E2].
  now rewrite E1, E2.
Qed.

(** X1: a stem is paired exactly when the directory has, among the regular
    files that are not script files, an image and a book with that
    normalized stem; it is reported missing exactly when it has files of
    one kind only.  The order of the listing plays no part. *)
Theorem build_pairs_stems (entries : list DirEntry) (stem : str) :
  (In stem (map pair_stem (fst (build_pairs entries)))
   <-> has_kind (items_of entries) stem true
       /\ has_kind (items_of entries) stem false)
  /\ (In stem (snd (build_pairs entries))
      <-> (has_kind (items_of entries) stem true
           \/ has_kind (items_of entries) stem false)
          /\ ~ (has_kind (items_of entries) stem true
                /\ has_kind (items_of entries) stem false)).
Proof.
  destruct (build_pairs_stems_eq entries) as [E1 E2]. cbv zeta in E1, E2.
  rewrite E1, E2, !filter_In, in_sorted_keys, negb_true_iff.
  rewrite <- paired_iff.
  assert (Hany : (exists p, In p (items_of entries) /\ stem_key p = stem)
                 <-> has_kind (items_of entries) stem true
                     \/ has_kind (items_of entries) stem false).
  { unfold has_kind. split.
    - intros (p & Hp & E). destruct (is_image p) eqn:Ei;
        [left | right]; now exists p.
    - intros [(p & Hp & E & _) | (p & Hp & E & _)]; now exists p. }
  rewrite Hany. split.
  - split; [now intros [_ H] | intros H; split; [|exact H]].
    apply paired_iff in H. now left.
  - split.
    + intros [H E]. split; [exact H|]. now rewrite E.
    + intros [H E]. split; [exact H|].
      destruct (paired (group_by_stem (items_of entries)) stem);
        [now contradiction E | reflexivity].
Qed.


Lemma has_kind_perm (items items' : list Path) (s : str) (kind : bool) :
  Permutation items items' -> has_kind items s kind -> has_kind items' s kind.
Proof.
  intros Hp (p & Hin & H). exists p. split; [|exact H].
  now apply (Permutation_in _ Hp).
Qed.

Lemma paired_perm (items items' : list Path) (s : str) :
  Permutation items items' ->
  paired (group_by_stem items) s = paired (group_by_stem items') s.
Proof.
  intros Hp.
  destruct (paired (group_by_stem items) s) eqn:E.
  - symmetry. apply paired_iff. apply paired_iff in E.
    destruct E as [E1 E2]. split; eapply has_kind_perm; eassumption.
  - destruct (paired (group_by_stem items') s) eqn:E'; [|reflexivity].
    apply paired_iff in E'. destruct E' as [E1 E2].
    rewrite <- E. apply paired_iff.
    split; eapply has_kind_perm; try eassumption; now apply Permutation_sym.
Qed.

Lemma sorted_keys_NoDup (items : list Path) :
  NoDup (sorted lower (keys (group_by_stem items))).
Proof.
  eapply Permutation_NoDup.
  - apply Permutation_sym, sorted_perm.
  - rewrite group_by_stem_from. apply keys_group_from_NoDup. constructor.
Qed.

Lemma filter_split_perm {A} (f : A -> bool) (l : list A) :
  Permutation (filter f l ++ filter (fun x => negb (f x)) l) l.
Proof.
  induction l as [|x l IH]; simpl; [constructor|].
  destruct (f x); simpl.
  - now constructor.
  - apply Permutation_sym, Permutation_cons_app, Permutation_sym, IH.
Qed.

(** X2: every normalized stem of a candidate file is reported exactly
    once, as the stem of a pair or as a missing one: the two lists have
    no stem twice and none in common, and together they hold the stems of
    the candidates and nothing else. *)
Theorem build_pairs_each_stem_once (entries : list DirEntry) :
  NoDup (map pair_stem (fst (build_pairs entries)) ++ snd (build_pairs entries))
  /\ forall stem,
       In stem (map pair_stem (fst (build_pairs entries))
                ++ snd (build_pairs entries))
       <-> exists p, In p (items_of entries) /\ stem_key p = stem.
Proof.
  destruct (build_pairs_stems_eq entries) as [E1 E2]. cbv zeta in E1, E2.
  rewrite E1, E2.
  set (d := group_by_stem (items_of entries)).
  pose proof (filter_split_perm (paired d) (sorted lower (keys d))) as Hp.
  split.
  - eapply Permutation_NoDup; [apply Permutation_sym, Hp|].
    apply sorted_keys_NoDup.
  - intros stem. rewrite <- in_sorted_keys. fold d. split; intros H.
    + now apply (Permutation_in _ Hp).
    + now apply (Permutation_in _ (Permutation_sym Hp)).
Qed.

(** X3: which stems are paired and which are missing does not depend on
    the order of the listing, ties or not: two listings of the same files
    give the same stems up to their order. *)
Theorem build_pairs_stems_perm (entries entries' : list DirEntry) :
  Permutation entries entries' ->
  Permutation (map pair_stem (fst (build_pairs entries)))
              (map pair_stem (fst (build_pairs entries')))
  /\ Permutation (snd (build_pairs entries)) (snd (build_pairs entries')).
Proof.
  intros Hp. apply items_of_perm in Hp.
  destruct (build_pairs_stems_eq entries) as [E1 E2].
  destruct (build_pairs_stems_eq entries') as [E1' E2'].
  cbv zeta in *. rewrite E1, E2, E1', E2'.
  assert (Hk : forall s,
             In s (sorted lower (keys (group_by_stem (items_of entries))))
             <-> In s (sorted lower (keys (group_by_stem (items_of entries'))))).
  { intros s. rewrite !in_sorted_keys. split; intros (p & Hin & E);
      exists p; (split; [|exact E]).
    - now apply (Permutation_in _ Hp).
    - now apply (Permutation_in _ (Permutation_sym Hp)). }
  split; apply NoDup_Permutation;
    try (apply NoDup_filter, sorted_keys_NoDup);
    intros s; rewrite !filter_In, (paired_perm _ _ s Hp), Hk; reflexivity.
Qed.

Lemma build_pairs_stems_perm_witness :
  Permutation (map pair_stem (fst (build_pairs two_covers)))
              (map pair_stem (fst (build_pairs two_covers_relisted)))
  /\ Permutation (snd (build_pairs two_covers))
                 (snd (build_pairs two_covers_relisted)).
Proof.
  apply build_pairs_stems_perm. apply perm_swap.
Defined.

Lemma fold_pair_step_first (d : dict (list Path)) (ks : list str)
  (ps : list Pair) (ms : list str) :
  Forall (first_of_group d) ps ->
  Forall (first_of_group d) (fst (fold_left (pair_step d) ks (ps, ms))).
Proof.
  revert ps ms. induction ks as [|s ks IH]; intros ps ms Hps; [exact Hps|].
  cbn [fold_left]. unfold pair_step at 2. fold suffix_key.
  destruct (filter is_image (sorted suffix_key (getitem d s)))
    as [|cover covers] eqn:Ei; [now apply IH|].
  destruct (filter (fun p => negb (is_image p))
              (sorted suffix_key (getitem d s))) as [|book books] eqn:Eb;
    [now apply IH|].
  apply IH. apply Forall_app. split; [exact Hps|].
  constructor; [|constructor].
  unfold first_of_group. now rewrite Ei, Eb.
Qed.

Lemma head_of_sorted_filter (items : list Path) (s : str) (f : Path -> bool)
  (x : Path) :
  head (filter f (sorted suffix_key (getitem (group_by_stem items) s)))
  = Some x ->
  In x items /\ stem_key x = s /\ f x = true
  /\ forall y, In y items -> stem_key y = s -> f y = true ->
       str_leb (suffix_key x) (suffix_key y) = true.
Proof.
  intros H.
  pose proof (StronglySorted_filter (key_le suffix_key) f _
                (sorted_sorted suffix_key
                   (getitem (group_by_stem items) s))) as Hs.
  destruct (filter f (sorted suffix_key (getitem (group_by_stem items) s)))
    as [|x' rest] eqn:E; [discriminate|].
  injection H as ->.
  assert (Hx : In x (filter f (sorted suffix_key
                                 (getitem (group_by_stem items) s))))
    by (rewrite E; now left).
  apply filter_In in Hx. destruct Hx as [Hx Hf].
  apply in_group in Hx. destruct Hx as [Hx Ex].
  repeat split; try assumption.
  intros y Hy Ey Hfy.
  assert (Hin : In y (x :: rest)).
  { rewrite <- E. apply filter_In. split; [|exact Hfy].
    apply in_group. now split. }
  destruct Hin as [<- | Hin]; [apply str_leb_refl|].
  apply StronglySorted_inv in Hs. destruct Hs as [_ Hs].
  rewrite Forall_forall in Hs. now apply Hs.
Qed.

Lemma items_of_In (entries : list DirEntry) (p : Path) :
  In p (items_of entries)
  <-> exists e, In e entries /\ path e = p /\ is_file e = true
                /\ str_in (name p) SCRIPT_FILES = false.
Proof.
  unfold items_of. rewrite in_map_iff. split.
  - intros (e & <- & He). apply filter_In in He. destruct He as [He Hf].
    apply andb_true_iff in Hf. destruct Hf as [Hf Hs].
    apply negb_true_iff in Hs. now exists e.
  - intros (e & He & <- & Hf & Hs). exists e. split; [reflexivity|].
    apply filter_In. split; [exact He|]. now rewrite Hf, Hs.
Qed.

(** X4: in every pair the image and the book are regular files of the
    listing whose names are not script names and whose normalized stem is
    the stem of the pair; the image has an image extension and the book
    has none; and each is the one with the least extension, in lower case,
    among the files of its kind with that stem. *)
Theorem build_pairs_choice (entries : list DirEntry) (stem : str)
  (cover book : Path) :
  In (stem, cover, book) (fst (build_pairs entries)) ->
  least_of_kind entries stem true cover
  /\ least_of_kind entries stem false book.
Proof.
  intros Hin.
  assert (Hfirst : first_of_group (group_by_stem (items_of entries))
                     (stem, cover, book)).
  { pose proof (fold_pair_step_first (group_by_stem (items_of entries))
                  (sorted lower (keys (group_by_stem (items_of entries))))
                  [] [] (Forall_nil _)) as H.
    rewrite Forall_forall in H. now apply H. }
  destruct Hfirst as [Hc Hb].
  apply head_of_sorted_filter in Hc, Hb.
  destruct Hc as (Hc1 & Hc2 & Hc3 & Hc4), Hb as (Hb1 & Hb2 & Hb3 & Hb4).
  apply negb_true_iff in Hb3. unfold least_of_kind. split.
  - split; [now apply items_of_In|].
    split; [exact Hc2|]. split; [exact Hc3|].
    intros q Hq Eq Hk. now apply Hc4.
  - split; [now apply items_of_In|].
    split; [exact Hb2|]. split; [exact Hb3|].
    intros q Hq Eq Hk. apply Hb4; try assumption. now apply negb_true_iff.
Qed.

Lemma build_pairs_choice_witness :
  least_of_kind (example_listing (lit "books")) (lit "Beta") true
    (in_folder (lit "books") "Beta.cover.png")
  /\ least_of_kind (example_listing (lit "books")) (lit "Beta") false
       (in_folder (lit "books") "Beta.pdf").
Proof.
  apply build_pairs_choice. right. now left.
Defined.

(** X5: after the first loop of [build_pairs] the entry of a stem lists
    exactly the candidates with that normalized stem, in the order of the
    listing; no key occurs twice, and a stem is a key exactly when some
    candidate has it. *)
Theorem group_by_stem_lookup (items : list Path) (stem : str) :
  getitem (group_by_stem items) stem
  = filter (fun p => str_eqb (stem_key p) stem) items
  /\ NoDup (keys (group_by_stem items))
  /\ (In stem (keys (group_by_stem items))
      <-> getitem (group_by_stem items) stem <> []).
Proof.
  split; [apply getitem_group_by_stem|]. split.
  - rewrite group_by_stem_from. apply keys_group_from_NoDup. constructor.
  - rewrite getitem_group_by_stem, filter_nonempty, group_by_stem_from,
      keys_group_from_In, in_map_iff.
    split.
    + intros [[]|(p & E & Hp)]. exists p. split; [exact Hp|].
      now apply str_eqb_eq.
    + intros (p & Hp & E). right. exists p. split; [|exact Hp].
      now apply str_eqb_eq.
Qed.

(** ** Stems and names *)

(** X6: a normalized stem has no whitespace at either end and is never
    longer than the stem it comes from; a stem without whitespace at its
    ends that does not end with the cover marker in any case is returned
    as it is. *)
Theorem normalize_stem_trimmed (stem : str) :
  strip (normalize_stem stem) = normalize_stem stem
  /\ length (normalize_stem stem) <= length stem
  /\ (strip stem = stem ->
      endswith (lower stem) cover_marker = false ->
      normalize_stem stem = stem).
Proof.
  split; [|split].
  - unfold normalize_stem. apply strip_idem.
  - unfold normalize_stem.
    pose proof (strip_length stem) as H.
    destruct (endswith (lower (strip stem)) cover_marker).
    + etransitivity; [apply strip_length|].
      unfold drop_last. rewrite length_firstn. lia.
    + etransitivity; [apply strip_length | exact H].
  - intros Hs He. unfold normalize_stem. now rewrite Hs, He, Hs.
Qed.

Lemma normalize_stem_trimmed_witness :
  normalize_stem (lit "War and Peace") = lit "War and Peace".
Proof.
  apply (normalize_stem_trimmed (lit "War and Peace")); reflexivity.
Defined.

(** X7: the name under which a converted cover is saved is never empty,
    has at most 180 characters before its extension, and has no slash, no
    backslash and no other forbidden character in it: it is one path
    component inside the temporary directory. *)
Theorem safe_name_of_component (stem : str) :
  safe_name_of stem <> []
  /\ length (safe_name_of stem) <= 180
  /\ Forall (fun c => forbidden c = false)
       (safe_name_of stem ++ lit ".jpg")
  /\ ~ In "/"%char (safe_name_of stem ++ lit ".jpg")
  /\ ~ In "\"%char (safe_name_of stem ++ lit ".jpg").
Proof.
  assert (Hclean : Forall (fun c => forbidden c = false)
                     (safe_name_of stem ++ lit ".jpg")).
  { apply Forall_app. split; [|repeat constructor].
    unfold safe_name_of.
    destruct (sanitize_filename stem) as [|c t] eqn:E;
      [repeat constructor|].
    rewrite <- E. apply sanitize_filename_safe. }
  split; [|split; [|split; [exact Hclean|]]].
  - unfold safe_name_of. destruct (sanitize_filename stem); discriminate.
  - unfold safe_name_of.
    destruct (sanitize_filename stem) as [|c t] eqn:E; [simpl; lia|].
    rewrite <- E. apply sanitize_filename_safe.
  - rewrite Forall_forall in Hclean.
    split; intros H; apply Hclean in H; discriminate H.
Qed.

(** X8: a size of a whole number of MB below 2^33 is printed as that
    number with two zeros after the point. *)
Theorem format_size_whole_megabytes (n : Z) :
  (0 <= n < 2 ^ 33)%Z ->
  format_size (n * 1024 * 1024) = str_of_Z n ++ lit ".00 MB".
Proof.
  intros Hn. unfold format_size.
  replace (n * 1024 * 1024)%Z with (n * 1048576)%Z by lia.
  change (1024 * 1024)%Z with 1048576%Z.
  assert (Hneg : (n * 1048576 <? 0)%Z = false) by (apply Z.ltb_ge; lia).
  rewrite Hneg, Z.abs_eq by lia.
  assert (Hfloat : nearest_float (n * 1048576) = (n * 1048576)%Z).
  { unfold nearest_float.
    destruct (Z.leb_spec (Z.log2 (n * 1048576) + 1) 53) as [_|Hbig];
      [reflexivity|].
    exfalso.
    destruct (Z.eq_dec n 0) as [-> | Hpos]; [simpl in Hbig; lia|].
    assert (Hlt : (Z.log2 (n * 1048576) < 53)%Z).
    { apply Z.log2_lt_pow2; [lia|].
      change (2 ^ 53)%Z with (2 ^ 33 * 1048576)%Z. lia. }
    lia. }
  rewrite Hfloat.
  assert (Hround : round_half_even (n * 1048576 * 100) 1048576
                   = (n * 100)%Z).
  { unfold round_half_even.
    replace (n * 1048576 * 100)%Z with (n * 100 * 1048576)%Z by lia.
    rewrite Z.div_mul, Z.mod_mul by lia. reflexivity. }
  rewrite Hround, Z.div_mul, Z.mod_mul by lia.
  reflexivity.
Qed.

Lemma format_size_whole_megabytes_witness :
  format_size (50 * 1024 * 1024) = lit "50.00 MB".
Proof.
  apply (format_size_whole_megabytes 50). split; [discriminate | reflexivity].
Defined.

(** ** The API client, call by call *)

Section ClientMore.

Variable lib : Libraries.

Lemma first_unreadable_advance (w : World) (k : nat) (t : list event)
  (files : list (str * Path)) :
  first_unreadable (advance w k t) files = first_unreadable w files.
Proof.
  induction files as [|[field_name q] files IH]; [reflexivity|].
  cbn [first_unreadable]. rewrite IH. reflexivity.
Qed.

Lemma foldM_unreadable (boundary : str) (files : list (str * Path))
  (chunks : list bytes) (w : World) (p : Path) :
  first_unreadable w files = Some p ->
  exists t,
    foldM
      (fun chunks '(field_name, file_path) =>
         file_data <- read_bytes file_path ;;
         ret (chunks ++ file_chunks lib boundary field_name file_path
                          file_data))
      files chunks w
    = (Raise (FileNotFoundError p), advance w 0 t)
    /\ filter is_urlopen t = [].
Proof.
  revert chunks w. induction files as [|[field_name q] files IH];
    intros chunks w H; [discriminate|].
  cbn [first_unreadable] in H. cbn [foldM].
  destruct (fs w q) as [f|] eqn:E.
  - destruct (IH (chunks ++ file_chunks lib boundary field_name q
                              (data_of w q))
                 (advance w 0 [ReadFile q])) as (t & Hrun & Ht).
    { now rewrite first_unreadable_advance. }
    exists (ReadFile q :: t). split; [|exact Ht].
    erewrite bind_ok;
      [|erewrite bind_ok;
        [reflexivity | apply read_bytes_run; congruence]].
    rewrite Hrun, advance_advance. reflexivity.
  - injection H as <-. exists [ReadFile q]. split; [|reflexivity].
    erewrite bind_raise; [reflexivity|].
    erewrite bind_raise; [reflexivity|].
    unfold read_bytes, bind, log, get_world. simpl. now rewrite E.
Qed.

End ClientMore.

(** X9: when one of the files to send is not there, the call raises the
    error of the first such file and sends no request. *)
Theorem telegram_call_unreadable (cfg : Config) (lib : Libraries)
  (method : str) (fields : dict str)
  (files : list (str * Path)) (w : World) (p : Path) :
  first_unreadable w files = Some p ->
  fst (telegram_call cfg lib method fields files w)
  = Raise (FileNotFoundError p)
  /\ sent (snd (telegram_call cfg lib method fields files w)) = sent w.
Proof.
  intros H. unfold telegram_call, encode_multipart.
  set (boundary := lit "----TelegramBoundary" ++ entropy w (drawn w)).
  destruct (foldM_unreadable lib boundary files
              (fold_left
                 (fun chunks '(key, value) =>
                    chunks ++ field_chunks boundary key value)
                 fields [])
              (advance w 1 []) p) as (t & Hrun & Ht).
  { now rewrite first_unreadable_advance. }
  erewrite bind_raise.
  2:{ erewrite bind_ok by apply draw_run. cbv zeta. fold boundary.
      erewrite bind_raise by exact Hrun. reflexivity. }
  cbn [fst snd]. split; [reflexivity|].
  rewrite !sent_advance. simpl. now rewrite Ht, !app_nil_r.
Qed.

Lemma telegram_call_unreadable_witness :
  fst (telegram_call sample_cfg sample_lib (lit "sendDocument")
         (document_fields sample_cfg)
         [(lit "document", in_folder (lit "books") "Gone.epub")]
         (sample_world 2 (fun _ => accepted)))
  = Raise (FileNotFoundError (in_folder (lit "books") "Gone.epub"))
  /\ sent (snd (telegram_call sample_cfg sample_lib (lit "sendDocument")
                  (document_fields sample_cfg)
                  [(lit "document", in_folder (lit "books") "Gone.epub")]
                  (sample_world 2 (fun _ => accepted))))
     = sent (sample_world 2 (fun _ => accepted)).
Proof.
  apply telegram_call_unreadable. reflexivity.
Defined.

(** X10: with every file readable, a call sends exactly one request,
    whatever the reply: a POST to the URL of the method under the token,
    with a timeout of 60 seconds, whose content type names the boundary of
    the body and whose content length is the length of the body. *)
Theorem telegram_call_request (cfg : Config) (lib : Libraries)
  (method : str) (fields : dict str)
  (files : list (str * Path)) (w : World) :
  readable w files ->
  exists req,
    sent (snd (telegram_call cfg lib method fields files w))
    = sent w ++ [UrlOpen req]
    /\ req_url req
       = lit "https://api.telegram.org/bot" ++ BOT_TOKEN cfg ++ lit "/"
         ++ method
    /\ req_method req = lit "POST"
    /\ req_timeout req = 60%Z
    /\ req_headers req
       = [ (lit "Content-Type",
            lit "multipart/form-data; boundary=" ++ boundary_of w);
           (lit "Content-Length", str_of_nat (length (req_data req))) ]
    /\ req_data req
       = concat (multipart_parts lib w (boundary_of w) fields files)
         ++ closing_delimiter (boundary_of w).
Proof.
  intros Hr. exists (request_of cfg lib w method fields files).
  rewrite (telegram_call_run cfg lib method fields files w Hr).
  cbn [snd]. rewrite sent_advance, filter_app, sent_reads.
  repeat split.
Qed.

Lemma telegram_call_request_witness :
  exists req,
    sent (snd (telegram_call sample_cfg sample_lib (lit "sendDocument")
                 (document_fields sample_cfg) [(lit "document", sample_book)]
                 (sample_world 2 (fun _ => URLError (lit "timed out")))))
    = [UrlOpen req]
    /\ req_url req = lit "https://api.telegram.org/bot123:abc/sendDocument".
Proof.
  destruct (telegram_call_request sample_cfg sample_lib (lit "sendDocument")
              (document_fields sample_cfg) [(lit "document", sample_book)]
              (sample_world 2 (fun _ => URLError (lit "timed out"))))
    as (req & Hsent & Hurl & _).
  - apply sample_world_readable. now right.
  - exists req. split; [exact Hsent | exact Hurl].
Defined.

(** X11: with every file readable and the reply [r] to the request, the
    call returns a payload exactly when [r] is a JSON object whose [ok]
    entry is true, and then it returns that object; it raises the
    too-large error only when [r] is an HTTP error of status 413; a
    transport error comes back as a [RuntimeError] that starts with
    [Network error: ], and an object whose [ok] entry is not true as one
    that starts with [Telegram API error: ]. *)
Theorem telegram_call_outcomes (cfg : Config) (lib : Libraries)
  (method : str) (fields : dict str)
  (files : list (str * Path)) (w : World) (r : reply) :
  readable w files ->
  (forall req, remote w (length (sent w)) req = r) ->
  let outcome := fst (telegram_call cfg lib method fields files w) in
  (forall payload,
      outcome = Ok payload <-> r = Body payload /\ ok payload = true)
  /\ (forall e, outcome = Raise e -> is_too_large e = true ->
        exists details, r = HTTPError 413 details)
  /\ (forall text, r = URLError text ->
        outcome = Raise (RuntimeError (lit "Network error: " ++ text)))
  /\ (forall payload, r = Body payload -> ok payload = false ->
        outcome
        = Raise (RuntimeError (lit "Telegram API error: " ++ repr payload))).
Proof.
  intros Hr Hreply outcome. subst outcome.
  rewrite (telegram_call_run cfg lib method fields files w Hr), Hreply.
  cbn [fst]. split; [|split; [|split]].
  - intros payload. split.
    + intros H. destruct r as [code details|text|text|p]; cbn in H;
        try discriminate.
      * destruct (code =? 413)%Z; discriminate.
      * destruct (ok p) eqn:E; [|discriminate]. now injection H as ->.
    + intros [-> Hok]. cbn. now rewrite Hok.
  - intros e He Hlarge.
    destruct r as [code details|text|text|p]; cbn in He.
    + destruct (code =? 413)%Z eqn:E.
      * apply Z.eqb_eq in E. subst code. now exists details.
      * injection He as <-. discriminate.
    + injection He as <-. discriminate.
    + injection He as <-. discriminate.
    + destruct (ok p); [discriminate|]. injection He as <-. discriminate.
  - intros text ->. reflexivity.
  - intros payload -> Hok. cbn. now rewrite Hok.
Qed.

Lemma telegram_call_outcomes_witness :
  fst (telegram_call sample_cfg sample_lib (lit "sendDocument")
         (document_fields sample_cfg) [(lit "document", sample_book)]
         (sample_world 2 (fun _ => URLError (lit "timed out"))))
  = Raise (RuntimeError (lit "Network error: timed out")).
Proof.
  apply (telegram_call_outcomes sample_cfg sample_lib (lit "sendDocument")
           (document_fields sample_cfg) [(lit "document", sample_book)]
           (sample_world 2 (fun _ => URLError (lit "timed out")))
           (URLError (lit "timed out"))).
  - apply sample_world_readable. now right.
  - reflexivity.
  - reflexivity.
Defined.

(** ** One pair, path by path *)

(** X12: when the photo call of a pair fails, the pair fails with the same
    exception and the document is never requested: the photo request is
    the only one the pair sends; this holds with the image sent as it is
    or converted, and the files are then as they were before the pair, the
    JPEG of a converted image being removed. *)
Theorem upload_pair_photo_failure (cfg : Config) (lib : Libraries)
  (stem : str) (image_path book_path : Path) (w : World) (e : exn) :
  passes_checks cfg lib w stem image_path book_path ->
  (forall req, reply_result (remote w (length (sent w)) req) = Raise e) ->
  exists photo,
    fst (upload_pair cfg lib stem image_path book_path w) = Raise e
    /\ sent (snd (upload_pair cfg lib stem image_path book_path w))
       = sent w ++ [UrlOpen photo]
    /\ req_url photo
       = lit "https://api.telegram.org/bot" ++ BOT_TOKEN cfg
         ++ lit "/sendPhoto"
    /\ (forall p,
          fs (snd (upload_pair cfg lib stem image_path book_path w)) p
          = fs w p).
Proof.
  intros Hchecks Hreply.
  destruct (upload_pair_run cfg lib stem image_path book_path w Hchecks)
    as (w1 & w2 & Hrun & _ & _ & _ & _ & _ & Hsent & Hfs).
  cbv zeta in Hrun, Hsent. rewrite Hreply in Hrun. rewrite Hrun.
  eexists. cbn [fst snd].
  split; [reflexivity|]. split; [exact Hsent|]. split; [reflexivity|].
  exact Hfs.
Qed.

Lemma upload_pair_photo_failure_witness :
  exists photo,
    fst (upload_pair sample_cfg sample_lib (lit "Alpha") sample_scan
           sample_book (sample_world 2 (fun _ => URLError (lit "timed out"))))
    = Raise (RuntimeError (lit "Network error: timed out"))
    /\ sent (snd (upload_pair sample_cfg sample_lib (lit "Alpha")
                    sample_scan sample_book
                    (sample_world 2 (fun _ => URLError (lit "timed out")))))
       = [UrlOpen photo].
Proof.
  destruct (upload_pair_photo_failure sample_cfg sample_lib (lit "Alpha")
              sample_scan sample_book
              (sample_world 2 (fun _ => URLError (lit "timed out")))
              (RuntimeError (lit "Network error: timed out")))
    as (photo & H1 & H2 & _).
  - split; [reflexivity|].
    eexists _, _. repeat split; try reflexivity; discriminate.
  - reflexivity.
  - exists photo. split; [exact H1 | exact H2].
Defined.



(** X14: an image that is sent as it is and is larger than the limit ends
    the pair with the too-large error, which names the image and its size;
    the run stats the two files and does nothing else, so neither the photo
    nor the document is requested. *)
Theorem upload_pair_image_too_large (cfg : Config) (lib : Libraries)
  (stem : str) (image_path book_path : Path) (w : World)
  (book cover : File) :
  fs w book_path = Some book ->
  (st_size book <= MAX_FILE_SIZE_BYTES cfg)%Z ->
  needs_conversion image_path = false ->
  fs w image_path = Some cover ->
  (MAX_FILE_SIZE_BYTES cfg < st_size cover)%Z ->
  upload_pair cfg lib stem image_path book_path w
  = (Raise (TelegramRequestTooLargeError
              (lit "Image is too large: " ++ name image_path ++ lit " ("
               ++ format_size (st_size cover) ++ lit ")")),
     advance w 0 [Stat book_path; Stat image_path]).
Proof.
  intros Hb Hbs Hconv Hc Hcs. unfold upload_pair.
  erewrite bind_ok by (apply stat_size_run; exact Hb).
  rewrite (size_within _ _ Hbs).
  unfold prepared_image_for_upload. fold (needs_conversion image_path).
  rewrite Hconv. cbn [negb].
  erewrite bind_raise; [reflexivity|].
  erewrite bind_ok by (apply stat_size_run; exact Hc).
  assert (E : (st_size cover >? MAX_FILE_SIZE_BYTES cfg)%Z = true)
    by (apply Z.gtb_lt; exact Hcs).
  rewrite E, advance_advance. reflexivity.
Qed.

Lemma upload_pair_image_too_large_witness :
  upload_pair sample_cfg sample_lib (lit "Alpha") sample_cover sample_book
    huge_cover_world
  = (Raise (TelegramRequestTooLargeError
              (lit "Image is too large: Alpha.jpg (60.00 MB)")),
     advance huge_cover_world 0 [Stat sample_book; Stat sample_cover]).
Proof.
  apply (upload_pair_image_too_large sample_cfg sample_lib (lit "Alpha")
           sample_cover sample_book huge_cover_world
           {| st_size := 2; content := [Byte.x50; Byte.x4b] |}
           {| st_size := 60 * 1024 * 1024;
              content := [Byte.xff; Byte.xd8] |});
    try reflexivity; discriminate.
Defined.

(** X15: a pair whose book is no longer there when it is its turn is
    counted as failed and as nothing else: [failed] is one more, and
    [uploaded], [too_large] and the report lines are as they were; no
    request is sent for it, the failure is printed, and the loop goes on
    with the next pair. *)
Theorem missing_book_counts_failed (cfg : Config) (lib : Libraries)
  (total index : nat) (t : Tally) (stem : str) (image_path book_path : Path)
  (rest : list Pair) (w : World) :
  delay_accepted cfg ->
  fs w book_path = None ->
  exists t' w',
    upload_step cfg lib total index t (stem, image_path, book_path) w
    = (Ok t', w')
    /\ failed t' = failed t + 1
    /\ uploaded t' = uploaded t
    /\ too_large t' = too_large t
    /\ too_large_details t' = too_large_details t
    /\ sent w' = sent w
    /\ In (Print (lit "  failed: " ++ exn_str (FileNotFoundError book_path)))
         (trace w')
    /\ upload_loop cfg lib total index
         ((stem, image_path, book_path) :: rest) t w
       = upload_loop cfg lib total (S index) rest t' w'.
Proof.
  intros Hdelay Hb.
  set (w0 := advance w 0 [Print (progress_line total index stem)]).
  assert (Hrun : upload_pair cfg lib stem image_path book_path w0
                 = (Raise (FileNotFoundError book_path),
                    advance w0 0 [Stat book_path])).
  { unfold upload_pair. erewrite bind_raise; [reflexivity|].
    now apply stat_size_missing. }
  pose proof (upload_step_run cfg lib total index t stem image_path book_path
                w _ _ Hdelay Hrun) as Hstep.
  eexists _, _. split; [exact Hstep|].
  split; [reflexivity|]. split; [reflexivity|]. split; [reflexivity|].
  split; [reflexivity|]. split; [|split].
  - unfold w0. rewrite !sent_advance. simpl. now rewrite !app_nil_r.
  - cbn [trace advance outcome_events outcome_lines FileNotFoundError].
    apply in_or_app. right. now left.
  - cbn [upload_loop]. erewrite bind_ok by exact Hstep. reflexivity.
Qed.

Lemma missing_book_counts_failed_witness :
  exists w',
    upload_step sample_cfg sample_lib 1 1 tally0
      (lit "Gone", sample_cover, in_folder (lit "books") "Gone.epub")
      (sample_world 2 (fun _ => accepted))
    = (Ok {| uploaded := 0; too_large := 0; failed := 1;
             too_large_details := [] |}, w')
    /\ sent w' = [].
Proof.
  destruct (missing_book_counts_failed sample_cfg sample_lib 1 1 tally0
              (lit "Gone") sample_cover (in_folder (lit "books") "Gone.epub")
              [] (sample_world 2 (fun _ => accepted)))
    as (t' & w' & H1 & Hf & Hu & Hl & Hd & H2 & _).
  - unfold delay_accepted. simpl. lia.
  - reflexivity.
  - exists w'. split; [|exact H2].
    rewrite H1. f_equal. f_equal. destruct t'. simpl in *. congruence.
Defined.

(** ** The image preparer on failure *)

(** X16: when the image of a conversion is not there, or Pillow fails to
    open, convert or save it, the preparer raises that error without
    running the caller's block, and the temporary directory is removed all
    the same: the run makes the directory, opens the image and removes the
    directory. *)
Theorem prepared_image_conversion_failure (lib : Libraries) (A : Type)
  (image_path : Path) (stem : str) (body : Path -> M A) (w : World)
  (e : exn) :
  needs_conversion image_path = true ->
  convert_image lib w image_path = Raise e ->
  prepared_image_for_upload lib image_path stem body w
  = (Raise e,
     removed
       (advance w 1 [MkTemp (temp_dir_of lib w); ImageOpen image_path])
       (jpg_path_of lib w stem) [RmTemp (temp_dir_of lib w)]).
Proof.
  intros Hconv Hfail. unfold prepared_image_for_upload.
  fold (needs_conversion image_path). rewrite Hconv. cbn [negb].
  fold (safe_name_of stem).
  erewrite bind_ok by apply draw_run. cbv zeta.
  fold (temp_dir_of lib w). fold (jpg_path_of lib w stem).
  erewrite bind_ok by apply log_run.
  unfold finally.
  assert (Hbody :
    forall k : bytes -> M A,
      (raw <- match fs w image_path with
              | Some f => ret (content f)
              | None => raise (FileNotFoundError image_path)
              end ;;
       src <- lift (Image_open lib raw) ;;
       rgb <- lift (Image_convert lib src (lit "RGB")) ;;
       jpeg <- lift (Image_save lib rgb (lit "JPEG") 90 true) ;;
       k jpeg)
        (advance (advance (advance w 1 []) 0 [MkTemp (temp_dir_of lib w)]) 0
           [ImageOpen image_path])
      = (Raise e,
         advance (advance (advance w 1 []) 0 [MkTemp (temp_dir_of lib w)]) 0
           [ImageOpen image_path])).
  { intros k. unfold convert_image in Hfail.
    destruct (fs w image_path) as [f|];
      [|injection Hfail as <-; reflexivity].
    erewrite bind_ok by reflexivity.
    destruct (Image_open lib (content f)) as [src|msg];
      [|injection Hfail as <-; reflexivity].
    erewrite bind_ok by reflexivity.
    destruct (Image_convert lib src (lit "RGB")) as [rgb|msg];
      [|injection Hfail as <-; reflexivity].
    erewrite bind_ok by reflexivity.
    destruct (Image_save lib rgb (lit "JPEG") 90 true) as [jpeg|msg];
      [discriminate Hfail | injection Hfail as <-; reflexivity]. }
  erewrite bind_ok by apply log_run.
  erewrite bind_ok by reflexivity.
  cbn [fs advance]. cbn [fs advance] in Hbody. rewrite Hbody.
  unfold removed, set_file, log, bind, with_fs, with_trace, advance.
  cbn. rewrite app_nil_r, <- !app_assoc. reflexivity.
Qed.

Lemma prepared_image_conversion_failure_witness :
  fst (prepared_image_for_upload blind_lib sample_scan (lit "Alpha")
         stat_size (sample_world 2 (fun _ => accepted)))
  = Raise (Exception (lit "cannot identify image file")).
Proof.
  rewrite (prepared_image_conversion_failure blind_lib Z sample_scan
             (lit "Alpha") stat_size (sample_world 2 (fun _ => accepted))
             (Exception (lit "cannot identify image file")));
    reflexivity.
Defined.

(** ** What a run appends to the trace *)

Lemma count_events_app (kind : event -> bool) (a b : list event) :
  count_events kind (a ++ b) = count_events kind a + count_events kind b.
Proof. unfold count_events. now rewrite filter_app, length_app. Qed.

Section Appends.

Variable kind : event -> bool.

Lemma appends_weaken {A} (n n' : nat) (m : M A) :
  n <= n' -> appends_at_most kind n m -> appends_at_most kind n' m.
Proof.
  intros Hle H w. destruct (H w) as (t & E & C). exists t. split; [exact E|].
  lia.
Qed.

Lemma appends_ret {A} (a : A) : appends_at_most kind 0 (ret a).
Proof. intros w. exists []. simpl. now rewrite app_nil_r. Qed.

Lemma appends_raise {A} (e : exn) : appends_at_most kind 0 (@raise A e).
Proof. intros w. exists []. simpl. now rewrite app_nil_r. Qed.

Lemma appends_get_world : appends_at_most kind 0 get_world.
Proof. intros w. exists []. simpl. now rewrite app_nil_r. Qed.

Lemma appends_draw : appends_at_most kind 0 draw.
Proof. intros w. exists []. simpl. now rewrite app_nil_r. Qed.

Lemma appends_set_file (p : Path) (f : option File) :
  appends_at_most kind 0 (set_file p f).
Proof. intros w. exists []. simpl. now rewrite app_nil_r. Qed.

Lemma appends_lift {A} (r : A + str) : appends_at_most kind 0 (lift r).
Proof. destruct r; [apply appends_ret | apply appends_raise]. Qed.

Lemma appends_log (e : event) :
  appends_at_most kind (count_events kind [e]) (log e).
Proof. intros w. exists [e]. split; [reflexivity | lia]. Qed.

Lemma appends_bind {A B} (n1 n2 : nat) (m : M A) (k : A -> M B) :
  appends_at_most kind n1 m ->
  (forall a, appends_at_most kind n2 (k a)) ->
  appends_at_most kind (n1 + n2) (bind m k).
Proof.
  intros Hm Hk w. destruct (Hm w) as (t1 & E1 & C1). unfold bind.
  destruct (m w) as [[a|e] w1]; cbn [snd] in E1.
  - destruct (Hk a w1) as (t2 & E2 & C2). exists (t1 ++ t2). split.
    + now rewrite E2, E1, app_assoc.
    + rewrite count_events_app. lia.
  - exists t1. cbn [snd]. split; [exact E1 | lia].
Qed.

Lemma appends_try_except {A} (n1 n2 : nat) (m : M A) (h : exn -> M A) :
  appends_at_most kind n1 m ->
  (forall e, appends_at_most kind n2 (h e)) ->
  appends_at_most kind (n1 + n2) (try_except m h).
Proof.
  intros Hm Hh w. destruct (Hm w) as (t1 & E1 & C1). unfold try_except.
  destruct (m w) as [[a|e] w1]; cbn [snd] in E1.
  - exists t1. cbn [snd]. split; [exact E1 | lia].
  - destruct (Hh e w1) as (t2 & E2 & C2). exists (t1 ++ t2). split.
    + now rewrite E2, E1, app_assoc.
    + rewrite count_events_app. lia.
Qed.

Lemma appends_finally {A} (n1 n2 : nat) (m : M A) (cleanup : M unit) :
  appends_at_most kind n1 m ->
  appends_at_most kind n2 cleanup ->
  appends_at_most kind (n1 + n2) (finally m cleanup).
Proof.
  intros Hm Hc w. destruct (Hm w) as (t1 & E1 & C1). unfold finally.
  destruct (m w) as [r w1]; cbn [snd] in *.
  destruct (Hc w1) as (t2 & E2 & C2). exists (t1 ++ t2). split.
  - now rewrite E2, E1, app_assoc.
  - rewrite count_events_app. lia.
Qed.

Lemma appends_foldM {A B} (f : A -> B -> M A) (l : list B) (a : A) :
  (forall a b, appends_at_most kind 0 (f a b)) ->
  appends_at_most kind 0 (foldM f l a).
Proof.
  intros Hf. revert a. induction l as [|b l IH]; intros a; cbn [foldM].
  - apply appends_ret.
  - apply (appends_bind 0 0); [apply Hf | exact IH].
Qed.

(** Only requests and events of the run may be of the kind counted, and a
    request counts for at most [c]. *)
Variable c : nat.
Hypothesis device_free : forall e, is_device e = true -> kind e = false.
Hypothesis request_cost : forall req, count_events kind [UrlOpen req] <= c.

Lemma appends_device (e : event) :
  is_device e = true -> appends_at_most kind 0 (log e).
Proof.
  intros H. eapply appends_weaken; [|apply appends_log].
  unfold count_events. simpl. now rewrite (device_free e H).
Qed.

Lemma appends_stat_size (p : Path) : appends_at_most kind 0 (stat_size p).
Proof.
  unfold stat_size.
  apply (appends_bind 0 0); [now apply appends_device|]. intros _.
  apply (appends_bind 0 0); [apply appends_get_world|]. intros w.
  destruct (fs w p); [apply appends_ret | apply appends_raise].
Qed.

Lemma appends_read_bytes (p : Path) : appends_at_most kind 0 (read_bytes p).
Proof.
  unfold read_bytes.
  apply (appends_bind 0 0); [now apply appends_device|]. intros _.
  apply (appends_bind 0 0); [apply appends_get_world|]. intros w.
  destruct (fs w p); [apply appends_ret | apply appends_raise].
Qed.

Variable cfg : Config.
Variable lib : Libraries.

Lemma appends_encode_multipart (fields : dict str)
  (files : list (str * Path)) :
  appends_at_most kind 0 (encode_multipart lib fields files).
Proof.
  unfold encode_multipart.
  apply (appends_bind 0 0); [apply appends_draw|]. intros token. cbv zeta.
  apply (appends_bind 0 0); [|intros chunks; apply appends_ret].
  apply appends_foldM. intros chunks [field_name file_path].
  apply (appends_bind 0 0); [apply appends_read_bytes|].
  intros file_data. apply appends_ret.
Qed.

Lemma appends_urlopen (req : Request) : appends_at_most kind c (urlopen req).
Proof.
  intros w. exists [UrlOpen req]. split; [reflexivity | apply request_cost].
Qed.

Lemma appends_telegram_call (method : str) (fields : dict str)
  (files : list (str * Path)) :
  appends_at_most kind c (telegram_call cfg lib method fields files).
Proof.
  unfold telegram_call. cbv zeta.
  apply (appends_bind 0 c); [apply appends_encode_multipart|].
  intros [body content_type].
  replace c with (c + 0) by lia.
  apply appends_bind; [apply appends_urlopen|].
  intros [code details|text|text|payload].
  - destruct (code =? 413)%Z; apply appends_raise.
  - apply appends_raise.
  - apply appends_raise.
  - destruct (negb (ok payload)); [apply appends_raise | apply appends_ret].
Qed.

Lemma appends_prepared_image {A} (n : nat) (image_path : Path) (stem : str)
  (body : Path -> M A) :
  (forall p, appends_at_most kind n (body p)) ->
  appends_at_most kind n (prepared_image_for_upload lib image_path stem body).
Proof.
  intros Hbody. unfold prepared_image_for_upload.
  destruct (negb (str_in (lower (suffix_of image_path))
                    [lit ".tif"; lit ".tiff"])); [apply Hbody|].
  cbv zeta.
  apply (appends_bind 0 n); [apply appends_draw|]. intros token.
  apply (appends_bind 0 n); [now apply appends_device|]. intros _.
  replace n with (n + 0) by lia. apply appends_finally.
  - apply (appends_bind 0 n); [now apply appends_device|]. intros _.
    apply (appends_bind 0 n); [apply appends_get_world|]. intros w.
    apply (appends_bind 0 n).
    { destruct (fs w image_path); [apply appends_ret | apply appends_raise]. }
    intros raw.
    apply (appends_bind 0 n); [apply appends_lift|]. intros src.
    apply (appends_bind 0 n); [apply appends_lift|]. intros rgb.
    apply (appends_bind 0 n); [apply appends_lift|]. intros jpeg.
    apply (appends_bind 0 n); [now apply appends_device|]. intros _.
    apply (appends_bind 0 n); [apply appends_set_file|]. intros _.
    apply Hbody.
  - apply (appends_bind 0 0); [apply appends_set_file|]. intros _.
    now apply appends_device.
Qed.

Lemma appends_upload_pair (stem : str) (image_path book_path : Path) :
  appends_at_most kind (c + c)
    (upload_pair cfg lib stem image_path book_path).
Proof.
  unfold upload_pair.
  apply (appends_bind 0 (c + c)); [apply appends_stat_size|].
  intros book_size.
  destruct (book_size >? MAX_FILE_SIZE_BYTES cfg)%Z;
    [eapply appends_weaken; [|apply appends_raise]; lia|].
  apply appends_bind.
  - apply appends_prepared_image. intros ready_image_path.
    apply (appends_bind 0 c); [apply appends_stat_size|].
    intros image_size.
    destruct (image_size >? MAX_FILE_SIZE_BYTES cfg)%Z;
      [eapply appends_weaken; [|apply appends_raise]; lia|].
    replace c with (c + 0) by lia.
    apply appends_bind; [apply appends_telegram_call|].
    intros _. apply appends_ret.
  - intros _. replace c with (c + 0) by lia.
    apply appends_bind; [apply appends_telegram_call|].
    intros _. apply appends_ret.
Qed.

End Appends.

Lemma device_not_request (e : event) : is_device e = true -> is_urlopen e = false.
Proof.
  unfold is_device. intros H. apply andb_true_iff in H.
  now apply negb_true_iff.
Qed.

Lemma device_not_run_event (e : event) :
  is_device e = true -> is_run_event e = false.
Proof.
  unfold is_device. intros H. apply andb_true_iff in H.
  now apply negb_true_iff.
Qed.

Lemma upload_pair_appends (cfg : Config) (lib : Libraries) (stem : str)
  (image_path book_path : Path) (w : World) :
  exists t,
    trace (snd (upload_pair cfg lib stem image_path book_path w))
    = trace w ++ t
    /\ count_events is_urlopen t <= 2
    /\ filter is_run_event t = [].
Proof.
  destruct (appends_upload_pair is_urlopen 1 device_not_request
              (fun req => le_n 1) cfg lib stem image_path book_path w)
    as (t & E & C).
  destruct (appends_upload_pair is_run_event 0 device_not_run_event
              (fun req => le_n 0) cfg lib stem image_path book_path w)
    as (t' & E' & C').
  rewrite E in E'. apply app_inv_head in E'. subst t'.
  exists t. split; [exact E|]. split; [exact C|].
  apply length_zero_iff_nil. unfold count_events in C'. simpl in C'. lia.
Qed.

(** X17: whatever happens to a pair, its upload only adds to the trace,
    sends at most two requests, and neither prints, nor sleeps, nor writes
    a text file. *)
Theorem upload_pair_events (cfg : Config) (lib : Libraries) (stem : str)
  (image_path book_path : Path) (w : World) :
  exists t,
    trace (snd (upload_pair cfg lib stem image_path book_path w))
    = trace w ++ t
    /\ count_events is_urlopen t <= 2
    /\ Forall (fun e => is_sleep e = false /\ is_print e = false
                        /\ is_write e = false) t.
Proof.
  destruct (upload_pair_appends cfg lib stem image_path book_path w)
    as (t & E & C & Hquiet).
  exists t. split; [exact E|]. split; [exact C|].
  apply Forall_forall. intros e He.
  assert (Hrun : is_run_event e = false).
  { destruct (is_run_event e) eqn:Er; [|reflexivity].
    assert (Hin : In e (filter is_run_event t))
      by (apply filter_In; now split).
    rewrite Hquiet in Hin. destruct Hin. }
  unfold is_run_event in Hrun.
  apply orb_false_iff in Hrun. destruct Hrun as [Hrun Hw].
  apply orb_false_iff in Hrun. tauto.
Qed.

Lemma filter_sleep_of_quiet (t : list event) :
  filter is_run_event t = [] ->
  filter is_sleep t = [] /\ filter is_write t = [].
Proof.
  induction t as [|e t IH]; intros H; [split; reflexivity|].
  cbn [filter] in *. destruct (is_run_event e) eqn:E; [discriminate|].
  unfold is_run_event in E. apply orb_false_iff in E. destruct E as [E Hw].
  apply orb_false_iff in E. destruct E as [Hs _].
  rewrite Hs, Hw. now apply IH.
Qed.

Lemma outcome_lines_kinds (r : result unit) :
  filter is_sleep (outcome_lines r) = []
  /\ filter is_urlopen (outcome_lines r) = []
  /\ filter is_write (outcome_lines r) = [].
Proof. destruct r as [[]|[reason|reason|reason]]; repeat split. Qed.



(** With a refused delay: the first pair and nothing after it. *)
Lemma upload_loop_stops (cfg : Config) (lib : Libraries) (total index : nat)
  (t : Tally) (item : Pair) (rest : list Pair) (w : World) :
  ~ delay_accepted cfg ->
  exists ev,
    fst (upload_loop cfg lib total index (item :: rest) t w)
    = Raise (sleep_error (POST_DELAY_SECONDS cfg))
    /\ trace (snd (upload_loop cfg lib total index (item :: rest) t w))
       = trace w ++ ev
    /\ filter is_sleep ev = []
    /\ count_events is_urlopen ev <= 2
    /\ filter is_write ev = [].
Proof.
  intros Hdelay. destruct item as [[stem image_path] book_path].
  pose proof (upload_loop_refused cfg lib total index t stem image_path
                book_path rest w Hdelay) as He.
  cbv zeta in He.
  match goal with
  | |- context [upload_loop ?c ?l ?n ?i ?ps ?a ?x] =>
      destruct (upload_loop c l n i ps a x) as [rl wl] eqn:El
  end.
  pose proof (eq_trans (eq_sym El) He) as Heq. injection Heq as -> ->.
  set (header := Print (progress_line total index stem)).
  destruct (upload_pair_appends cfg lib stem image_path book_path
              (advance w 0 [header])) as (t1 & E1 & C1 & Q1).
  destruct (upload_pair cfg lib stem image_path book_path
              (advance w 0 [header])) as [r w1].
  cbn [fst snd trace advance] in *.
  destruct (filter_sleep_of_quiet t1 Q1) as [S1 W1].
  destruct (outcome_lines_kinds r) as (So & Uo & Wo).
  exists ([header] ++ t1 ++ outcome_lines r).
  split; [reflexivity|]. split; [|split; [|split]].
  - rewrite E1. now rewrite <- !app_assoc.
  - rewrite !filter_app, S1, So. reflexivity.
  - unfold count_events in *.
    rewrite !filter_app, !length_app, Uo. cbn [filter is_urlopen header].
    cbn [length]. lia.
  - rewrite !filter_app, W1, Wo. reflexivity.
Qed.



(** ** The run as a whole *)

(** X19: with a placeholder left in the token or in the channel, [main]
    raises before it looks at the folder; with the folder missing it raises
    and names the folder; in both cases the world is left as it was.  With
    the folder there but no pair in it, [main] prints one line and returns;
    nothing is sent, slept or written. *)
Theorem main_setup (cfg : Config) (lib : Libraries) (w : World) :
  (unconfigured cfg = true ->
   main cfg lib w
   = (Raise (RuntimeError
               (lit "Set BOT_TOKEN and CHANNEL_ID in telegram_book/config.py")),
      w))
  /\ (unconfigured cfg = false ->
      folders w (FILES_DIR cfg) = Absent ->
      main cfg lib w
      = (Raise (RuntimeError (lit "Folder not found: " ++ FILES_DIR cfg)), w))
  /\ (forall entries,
        unconfigured cfg = false ->
        folders w (FILES_DIR cfg) = Directory entries ->
        fst (build_pairs entries) = [] ->
        main cfg lib w
        = (Ok tt,
           advance w 0
             [Print (lit "No valid pairs found in: " ++ FILES_DIR cfg)])).
Proof.
  split; [|split].
  - intros H. unfold main. fold (unconfigured cfg). now rewrite H.
  - intros H Hdir. unfold main. fold (unconfigured cfg). rewrite H.
    cbv zeta. erewrite bind_ok by apply path_exists_run. now rewrite Hdir.
  - intros entries H Hdir Hnone.
    exact (main_without_pairs cfg lib w entries H Hdir Hnone).
Qed.

Lemma main_setup_witness :
  main placeholder_cfg sample_lib (sample_world 2 (fun _ => accepted))
  = (Raise (RuntimeError
              (lit "Set BOT_TOKEN and CHANNEL_ID in telegram_book/config.py")),
     sample_world 2 (fun _ => accepted))
  /\ main elsewhere_cfg sample_lib (sample_world 2 (fun _ => accepted))
     = (Raise (RuntimeError (lit "Folder not found: nowhere")),
        sample_world 2 (fun _ => accepted)).
Proof.
  split.
  - apply (main_setup placeholder_cfg sample_lib). reflexivity.
  - apply (main_setup elsewhere_cfg sample_lib); reflexivity.
Defined.


Lemma header_events_kinds (pairs : list Pair) (missing : list str) :
  filter is_sleep (header_events pairs missing) = []
  /\ filter is_urlopen (header_events pairs missing) = []
  /\ filter is_write (header_events pairs missing) = [].
Proof. unfold header_events. destruct missing; repeat split. Qed.




(** X22: what stops [main] after the tokens are checked.  A folder that
    exists but is no directory makes the listing fail, and that error
    leaves [main] with the world as it was.  A negative delay is refused by
    [sleep] after the first pair has been dealt with: the error of [sleep]
    leaves [main], which has sent at most two requests, has not slept and
    has written no report, whatever the outcome of that pair was. *)
Theorem main_stops (cfg : Config) (lib : Libraries) (w : World) :
  unconfigured cfg = false ->
  (folders w (FILES_DIR cfg) = NotADirectory ->
   main cfg lib w = (Raise (NotADirectoryError (FILES_DIR cfg)), w))
  /\ (forall entries,
        folders w (FILES_DIR cfg) = Directory entries ->
        fst (build_pairs entries) <> [] ->
        (-9223372036 <= POST_DELAY_SECONDS cfg < 0)%Z ->
        exists ev,
          fst (main cfg lib w)
          = Raise (ValueError (lit "sleep length must be non-negative"))
          /\ trace (snd (main cfg lib w)) = trace w ++ ev
          /\ count_events is_urlopen ev <= 2
          /\ filter is_sleep ev = []
          /\ filter is_write ev = []).
Proof.
  intros Hcfg. split.
  - intros Hdir. unfold main. fold (unconfigured cfg). rewrite Hcfg.
    cbv zeta. erewrite bind_ok by apply path_exists_run.
    rewrite Hdir. cbn [negb].
    erewrite bind_raise; [reflexivity|].
    unfold iterdir, bind, get_world. now rewrite Hdir.
  - intros entries Hdir Hne Hneg.
    destruct (build_pairs entries) as [pairs missing] eqn:Hbuild.
    cbn [fst] in Hne.
    rewrite (main_start cfg lib w entries pairs missing Hcfg Hdir Hbuild Hne).
    destruct pairs as [|item rest]; [contradiction|].
    assert (Hdelay : ~ delay_accepted cfg)
      by (unfold delay_accepted; lia).
    set (w0 := advance w 0 (header_events (item :: rest) missing)).
    destruct (upload_loop_stops cfg lib (length (item :: rest)) 1 tally0
                item rest w0 Hdelay) as (ev & Hraise & E & Hs & Hu & Hw).
    assert (Herr : sleep_error (POST_DELAY_SECONDS cfg)
                   = ValueError (lit "sleep length must be non-negative")).
    { unfold sleep_error.
      assert (Ha : (Z.abs (POST_DELAY_SECONDS cfg) >? 9223372036)%Z = false)
        by (apply size_within; lia).
      now rewrite Ha. }
    rewrite Herr in Hraise.
    destruct (header_events_kinds (item :: rest) missing) as (Sh & Uh & Wh).
    exists (header_events (item :: rest) missing ++ ev).
    destruct (upload_loop cfg lib (length (item :: rest)) 1 (item :: rest)
                tally0 w0) as [r w1] eqn:El.
    cbn [fst snd] in Hraise, E. subst r.
    erewrite bind_raise by exact El. cbn [fst snd].
    split; [reflexivity|]. split.
    { rewrite E. unfold w0. cbn [trace advance]. now rewrite <- app_assoc. }
    split; [|split].
    + unfold count_events in *. rewrite filter_app, length_app, Uh.
      cbn [length]. lia.
    + now rewrite filter_app, Sh, Hs.
    + now rewrite filter_app, Wh, Hw.
Qed.

Lemma main_stops_witness :
  exists ev,
    fst (main hasty_cfg sample_lib (sample_world 2 (fun _ => accepted)))
    = Raise (ValueError (lit "sleep length must be non-negative"))
    /\ trace (snd (main hasty_cfg sample_lib
                     (sample_world 2 (fun _ => accepted))))
       = ev
    /\ count_events is_urlopen ev <= 2.
Proof.
  destruct (main_stops hasty_cfg sample_lib
              (sample_world 2 (fun _ => accepted)) eq_refl) as [_ H].
  destruct (H [ listed (lit "books") "Alpha.jpg";
                listed (lit "books") "Alpha.epub" ])
    as (ev & H1 & H2 & H3 & _).
  - reflexivity.
  - discriminate.
  - unfold hasty_cfg. simpl. lia.
  - exists ev. split; [exact H1|]. split; [exact H2 | exact H3].
Defined.

(** ** Covers and books under one stem *)

(** X21: the stem of a cover named after a book with the cover marker
    appended, in any case, normalizes to the normalized stem of the book,
    provided the stem of the book does not itself end with the marker; so
    [Title.cover.png] and [Title.pdf] fall into one group. *)
Theorem normalize_stem_cover_of (stem marker : str) :
  lower marker = cover_marker ->
  endswith (lower (strip stem)) cover_marker = false ->
  normalize_stem (stem ++ marker) = normalize_stem stem
  /\ normalize_stem stem = strip stem.
Proof.
  intros Hm Hplain.
  assert (Hs : normalize_stem stem = strip stem).
  { unfold normalize_stem. rewrite Hplain. apply strip_idem. }
  split; [|exact Hs].
  rewrite Hs. now apply normalize_stem_app_cover.
Qed.

Lemma normalize_stem_cover_of_witness :
  normalize_stem (lit "Title" ++ lit ".Cover") = normalize_stem (lit "Title")
  /\ normalize_stem (lit "Title") = strip (lit "Title").
Proof.
  apply normalize_stem_cover_of; reflexivity.
Defined.
